(** * businessFinder: a shallow embedding of [businessFinder.py]

    The script looks for stores that publish a phone number but no website
    around a ZIP code.  It geocodes the ZIP code, tiles the search disk with
    a grid of sample points, queries a places service at every point, merges
    the answers by [place_id], looks up the details of every candidate and
    widens the radius until enough stores are found.

    Python values are embedded as follows.
    - [float] is Rocq's primitive binary64 type, which is Python's [float].
    - [int] is [Z]; an [int] that meets a [float] in an arithmetic expression
      is converted by [float_of_int] (round to nearest, [OverflowError]
      beyond the doubles), and [int / int] is the correctly rounded
      quotient.
    - [str] is [string], one code point below 256 per character; [None] or a
      missing JSON key is [None] of an [option]; the numbers of a JSON body
      are floats, and its texts are [str].
    - the [set] of names is a [gset] of the texts and [None] it holds (what
      pandas reads as a number is no text, equals no name, and is left out);
      a [dict] whose order of insertion matters is an association list.
    - every network or file-system call is answered by an oracle of the
      environment [Env]; the oracle sees the whole history of calls, and the
      call and its answer are appended to that history (the [trace]).
    - exceptions and non-termination are outcomes ([Raise], [OutOfFuel]).
    Messages printed on the console are not part of the model. *)

From Stdlib Require Import ZArith List Bool Ascii String Lia.
From Stdlib Require Import Floats.
From stdpp Require Import base decidable list strings gmap pretty.

Local Open Scope Z_scope.

(** ** Outcomes of Python code *)

Inductive exn : Type :=
| ZeroDivisionError
| OverflowError
| ValueError
| TypeError
| KeyError
| ConnectionError
| JSONDecodeError.

Inductive outcome (A : Type) : Type :=
| Ok (a : A)
| Raise (e : exn)
| OutOfFuel.

Arguments Ok {A} a.
Arguments Raise {A} e.
Arguments OutOfFuel {A}.

Definition obind {A B} (o : outcome A) (k : A -> outcome B) : outcome B :=
  match o with
  | Ok a => k a
  | Raise e => Raise e
  | OutOfFuel => OutOfFuel
  end.

(** [for x in xs: s = body x s], where the body may raise. *)
Fixpoint for_each {A S} (xs : list A) (body : A -> S -> outcome S) (s : S)
  : outcome S :=
  match xs with
  | [] => Ok s
  | x :: xs' => obind (body x s) (for_each xs' body)
  end.

(** ** Numbers *)

Module PyFloat.

(** The double nearest to the integer [z], ties to even; an infinity when
    [z] rounds beyond the largest double. *)
Definition nearest (z : Z) : float :=
  SF2Prim (binary_normalize prec emax z 0 false).

(** The least magnitude that rounds beyond the largest double,
    [2^1024 - 2^970]. *)
Definition int_overflow : Z := 2 ^ 1024 - 2 ^ 970.

(** An [int] that meets a [float] in an arithmetic expression is converted
    to the nearest double; CPython raises [OverflowError] ("int too large to
    convert to float") when the rounded value is out of range. *)
Definition float_of_int (z : Z) : outcome float :=
  if Z.abs z <? int_overflow then Ok (nearest z) else Raise OverflowError.

(** Truth value of a [float]: everything but [0.0] and [-0.0]. *)
Definition truthy (x : float) : bool := negb (PrimFloat.eqb x 0%float).

(** [x / y] on floats raises on a zero divisor. *)
Definition truediv (x y : float) : outcome float :=
  if PrimFloat.eqb y 0%float then Raise ZeroDivisionError
  else Ok (PrimFloat.div x y).

(** The quotient of two ints, [b] not zero, rounded once to the nearest
    double (ties to even): the integer quotient is taken with enough bits,
    with the position of the remainder, and then rounded.  The sign of a
    zero is the sign of the exact quotient. *)
Definition quotient (a b : Z) : float :=
  let sign := xorb (a <? 0) (b <? 0) in
  match a with
  | 0 => SF2Prim (S754_zero sign)
  | _ =>
      let '(m, e, l) :=
        SFdiv_core_binary prec emax (Z.abs a) 0 (Z.abs b) 0 in
      SF2Prim (binary_round_aux prec emax sign m e l)
  end.

(** [a / b] on ints: [ZeroDivisionError] for a zero divisor, else the
    correctly rounded quotient, and [OverflowError] ("integer division
    result too large for a float") when it is out of range. *)
Definition truediv_int (a b : Z) : outcome float :=
  if b =? 0 then Raise ZeroDivisionError
  else let q := quotient a b in
       if is_finite q then Ok q else Raise OverflowError.

(** [math.pi] *)
Definition pi : float := 0x1.921fb54442d18p+1%float.

End PyFloat.

(** [range(lo, hi)].  Python's [a // 2] is [a / 2] on [Z] (both round down). *)
Definition py_range (lo hi : Z) : list Z := seqZ lo (hi - lo).

(** ** The grid of sample points: [get_grid_points] *)

Section Grid.

(** The C library's cosine, which [math.cos] calls; it is a parameter
    here. *)
Variable math_cos : float -> float.

(** [math.cos(x)]: CPython raises [ValueError] ("math domain error") when
    the C function answers NaN for an argument that is not NaN, as the C
    cosine does at the infinities.  (CPython also raises when the C function
    answers an infinity at a finite argument; a cosine, which stays within
    -1 and 1, never does, and the model leaves that test out.) *)
Definition py_cos (x : float) : outcome float :=
  let r := math_cos x in
  if is_nan r && negb (is_nan x) then Raise ValueError else Ok r.

Definition point : Type := float * float.

(** Metres per degree of latitude, the constant [111320]. *)
Definition metres_per_degree : Z := 111320.

(** The value of the divisor of the longitude offset,
    [111320 * math.cos(center_lat * math.pi / 180)], when the cosine
    returns.  The two int constants convert exactly. *)
Definition lng_divisor (center_lat : float) : float :=
  (PyFloat.nearest metres_per_degree
   * math_cos (center_lat * PyFloat.pi / PyFloat.nearest 180))%float.

(** The point at the offsets [i] and [j], when nothing raises. *)
Definition offset_point (center_lat center_lng offset : float) (i j : Z)
  : point :=
  ((center_lat
    + (PyFloat.nearest i * offset)
      / PyFloat.nearest metres_per_degree)%float,
   (center_lng
    + (PyFloat.nearest j * offset) / lng_divisor center_lat)%float).

(** The body of the inner loop for the offsets [i] and [j], in the order
    in which Python evaluates it: [i * offset] converts [i], [j * offset]
    converts [j], then the cosine is called, then the quotient is taken.
    The result is the point that is appended to [points]. *)
Definition grid_point (center_lat center_lng offset : float) (i j : Z)
  : outcome point :=
  obind (PyFloat.float_of_int i) (fun i' =>
  let lat :=
    (center_lat
     + (i' * offset) / PyFloat.nearest metres_per_degree)%float in
  obind (PyFloat.float_of_int j) (fun j' =>
  obind (py_cos (center_lat * PyFloat.pi / PyFloat.nearest 180)%float)
        (fun c =>
  obind (PyFloat.truediv (j' * offset)
                         (PyFloat.nearest metres_per_degree * c)%float)
        (fun dlng => Ok (lat, (center_lng + dlng)%float))))).

Definition get_grid_points (center_lat center_lng : float) (radius : Z)
           (num_points : Z) : outcome (list point) :=
  let half := num_points / 2 in
  obind (PyFloat.truediv_int radius half) (fun offset =>
  let rng := py_range (- num_points / 2) (half + 1) in
  for_each rng (fun i points =>
    for_each rng (fun j points =>
      obind (grid_point center_lat center_lng offset i j)
            (fun p => Ok (points ++ [p])))
      points)
    []).

End Grid.

(** ** Strings *)

Module PyStr.

(** [sep.join(xs)] *)
Fixpoint join (sep : string) (xs : list string) : string :=
  match xs with
  | [] => ""
  | [x] => x
  | x :: xs' => x +:+ sep +:+ join sep xs'
  end.

(** [s.split(sep)] for a separator of one character: the pieces between
    the separators, empty pieces included. *)
Fixpoint split_go (sep : ascii) (cur : string) (s : string) : list string :=
  match s with
  | EmptyString => [cur]
  | String c s' =>
      if Ascii.eqb c sep then cur :: split_go sep "" s'
      else split_go sep (cur +:+ String c "") s'
  end.

Definition split (sep : ascii) (s : string) : list string :=
  split_go sep "" s.

(** [str.isspace] on one character: the code points below 256 that
    Python counts as whitespace. *)
Definition is_space (c : ascii) : bool :=
  let n := nat_of_ascii c in
  ((9 <=? n) && (n <=? 13) || (28 <=? n) && (n <=? 32)
   || (n =? 133) || (n =? 160))%nat.

Fixpoint lstrip (s : string) : string :=
  match s with
  | String c s' => if is_space c then lstrip s' else s
  | EmptyString => EmptyString
  end.

(** What is left of [s] once trailing whitespace is removed. *)
Fixpoint rstrip (s : string) : string :=
  match s with
  | EmptyString => EmptyString
  | String c s' =>
      match rstrip s' with
      | EmptyString => if is_space c then EmptyString else String c ""
      | r => String c r
      end
  end.

(** [s.strip()] *)
Definition strip (s : string) : string := rstrip (lstrip s).

(** A text without the character [sep]. *)
Fixpoint lacks (sep : ascii) (s : string) : bool :=
  match s with
  | EmptyString => true
  | String c s' => negb (Ascii.eqb c sep) && lacks sep s'
  end.

(** Truth value of a value that is a [str] or [None]. *)
Definition truthy (o : option string) : bool :=
  match o with
  | Some (String _ _) => true
  | _ => false
  end.

End PyStr.

(** ** Data *)

(** One item of the [results] of a nearby-search answer.  Every key may be
    missing; [place.get(k)] is then [None]. *)
Record place : Type := {
  p_name : option string;
  p_place_id : option string;
  p_vicinity : option string;
  p_types : option (list string)
}.

(** The parsed body of a nearby-search answer, as the code reads it:
    [data.get('results', [])] and [data.get('next_page_token')]. *)
Record page : Type := {
  results : list place;
  next_page_token : option string
}.

(** The dictionary built for every result item. *)
Record business : Type := {
  name : option string;
  place_id : option string;
  address : option string;
  types : string
}.

(** The dictionary returned by [get_business_details]. *)
Record details : Type := {
  phone : option string;
  website : option string
}.

(** A row of the result: the dictionary appended by [filter_businesses]. *)
Record row : Type := {
  Name : option string;
  Address : option string;
  Phone : option string;
  Types : string
}.

(** A value of a column read by pandas: a column of digits is read as
    ints, one of decimals as floats, a missing or NA-like cell as the float
    NaN, a column of [True] and [False] as bools; any other cell is a
    text. *)
Inductive cell : Type :=
| Text (s : string)
| IntCell (z : Z)
| FloatCell (x : float)
| BoolCell (b : bool).

(** The texts among the values of a column.  The name of a business is a
    text or [None]; no int, float or bool equals one. *)
Definition texts (cells : list cell) : list string :=
  omap (fun c => match c with Text s => Some s | _ => None end) cells.

Global Instance place_eq_dec : EqDecision place.
Proof. solve_decision. Defined.
Global Instance business_eq_dec : EqDecision business.
Proof. solve_decision. Defined.
Global Instance details_eq_dec : EqDecision details.
Proof. solve_decision. Defined.
Global Instance row_eq_dec : EqDecision row.
Proof. solve_decision. Defined.

(** ** The environment and the trace of calls *)

(** The answer of a service: a parsed body, or the exception raised by
    [requests.get] (transport) or by [response.json()] and the reading of
    the body (malformed answer). *)
Inductive reply (A : Type) : Type :=
| Reply (a : A)
| Fails (e : exn).

Arguments Reply {A} a.
Arguments Fails {A} e.

(** The parameters of a nearby-search request.  The code sends the location
    as the text [f'{lat},{lng}']; the model keeps the two numbers. *)
Record nearby_params : Type := {
  location : point;
  radius : Z;
  type_ : string;
  key : option string;
  pagetoken : option string
}.

Inductive event : Type :=
| GeocodeCall (address : string) (api_key : option string)
              (r : reply (list point))
| NearbyCall (params : nearby_params) (r : reply page)
| DetailsCall (id : option string) (api_key : option string)
              (r : reply details)
| GlobCall (pattern : string) (files : list string)
| ReadCsvCall (file : string) (r : reply (list cell))
| ToCsvCall (file_name : string) (rows : list row).

Definition trace : Type := list event.

(** What the script does not define itself.  Every oracle receives the calls
    made so far, so an answer may depend on the whole history. *)
Record Env : Type := {
  (** the C library's cosine, behind [math.cos] *)
  math_cos : float -> float;
  (** the geocoding service: the [geometry.location] of every result *)
  geocode_api : trace -> string -> option string -> reply (list point);
  (** the nearby-search service *)
  nearby_api : trace -> nearby_params -> reply page;
  (** the details service: the two fields read from [result] *)
  details_api : trace -> option string -> option string -> reply details;
  (** [glob.glob] *)
  glob_fs : trace -> string -> list string;
  (** [pd.read_csv(file)['Name'].tolist()] *)
  read_csv_names : trace -> string -> reply (list cell)
}.

(** Computations that call the environment: the trace is threaded through,
    and only grows. *)
Definition M (A : Type) : Type := trace -> outcome A * trace.

Definition ret {A} (a : A) : M A := fun t => (Ok a, t).

Definition bind {A B} (m : M A) (k : A -> M B) : M B :=
  fun t =>
    match m t with
    | (Ok a, t') => k a t'
    | (Raise e, t') => (Raise e, t')
    | (OutOfFuel, t') => (OutOfFuel, t')
    end.

Definition lift {A} (o : outcome A) : M A := fun t => (o, t).

Definition out_of_fuel {A} : M A := lift OutOfFuel.

Notation "'let*' x ':=' m 'in' k" := (bind m (fun x => k))
  (at level 10, x name, m at level 100, k at level 200).

(** Perform a call: ask the oracle, log the call with its answer, and
    return the body or raise. *)
Definition call {A} (ask : trace -> reply A) (log : reply A -> event) : M A :=
  fun t =>
    let r := ask t in
    (match r with Reply a => Ok a | Fails e => Raise e end, t ++ [log r]).

(** [for x in xs: s = body x s] in [M]. *)
Fixpoint for_eachM {A S} (xs : list A) (body : A -> S -> M S) (s : S) : M S :=
  match xs with
  | [] => ret s
  | x :: xs' => let* s' := body x s in for_eachM xs' body s'
  end.

(** A Python [dict] as the list of its items in order of insertion:
    [d[k] = v] replaces the value of a key that is present, in place, and
    appends a new key. *)
Fixpoint dict_set {K V} `{EqDecision K} (d : list (K * V)) (k : K) (v : V)
  : list (K * V) :=
  match d with
  | [] => [(k, v)]
  | (k', v') :: d' =>
      if decide (k' = k) then (k', v) :: d' else (k', v') :: dict_set d' k v
  end.

Section Program.

Variable E : Env.

(** *** [get_lat_lng] *)

Definition get_lat_lng (zip_code : string) (api_key : option string)
  : M (option float * option float) :=
  let* location_data := call (fun t => geocode_api E t zip_code api_key)
                             (GeocodeCall zip_code api_key) in
  match location_data with
  | (lat, lng) :: _ => ret (Some lat, Some lng)
  | [] => ret (None, None)
  end.

(** *** [get_businesses_grid_search] *)

(** The dictionary built from one result item; [', '.join(None)] raises. *)
Definition business_of_place (p : place) : outcome business :=
  match p_types p with
  | Some ts =>
      Ok {| name := p_name p; place_id := p_place_id p;
            address := p_vicinity p; types := PyStr.join ", " ts |}
  | None => Raise TypeError
  end.

(** The [while True] loop at one grid point: one request per page. *)
Fixpoint search_point (fuel : nat) (pt : point) (radius : Z)
         (api_key : option string) (page_token : option string)
         (businesses : list business) : M (list business) :=
  match fuel with
  | O => out_of_fuel
  | S fuel' =>
      let params :=
        {| location := pt; radius := radius; type_ := "store";
           key := api_key;
           pagetoken := if PyStr.truthy page_token
                        then page_token else None |} in
      let* data := call (fun t => nearby_api E t params)
                        (NearbyCall params) in
      let* businesses' :=
        lift (for_each (results data)
                (fun place bs =>
                   obind (business_of_place place)
                         (fun b => Ok (bs ++ [b])))
                businesses) in
      if PyStr.truthy (next_page_token data)
      then search_point fuel' pt radius api_key (next_page_token data)
                        businesses'
      else ret businesses'
  end.

(** The reduction to one business per [place_id]:
    [{business['place_id']: business for business in businesses}.values()] *)
Definition merge_step (d : list (option string * business)) (b : business)
  : list (option string * business) :=
  dict_set d (place_id b) b.

Definition unique_businesses (businesses : list business) : list business :=
  (fold_left merge_step businesses []).*2.

(** [b] is the last business of the list that carries its [place_id]. *)
Definition last_seen (businesses : list business) (b : business) : Prop :=
  exists before after,
    businesses = before ++ b :: after /\
    Forall (fun b' => place_id b' <> place_id b) after.

(** Every key of the dictionary is the [place_id] of its value, and no key
    occurs twice. *)
Definition keyed (d : list (option string * business)) : Prop :=
  NoDup d.*1 /\ forall k v, (k, v) ∈ d -> place_id v = k.

(** What the calls of a pass say about its outcome, for a pass that starts
    with the businesses [before]: a nearby call that fails is the last call
    and its exception is the outcome; and when the pass returns, it returns
    the businesses it started with and one business for every item of every
    page it received. *)
Definition pass_facts (before : list business) (calls : list event)
           (o : outcome (list business)) : Prop :=
  (forall params e,
      NearbyCall params (Fails e) ∈ calls ->
      o = Raise e /\
      exists earlier, calls = earlier ++ [NearbyCall params (Fails e)]) /\
  (forall bs,
      o = Ok bs ->
      (forall b, b ∈ before -> b ∈ bs) /\
      forall params pg p,
        NearbyCall params (Reply pg) ∈ calls -> p ∈ results pg ->
        exists b, b ∈ bs /\ business_of_place p = Ok b).

(** The loop over the grid points: what [businesses] holds after it. *)
Definition collect_businesses (fuel : nat) (grid_points : list point)
           (radius : Z) (api_key : option string) : M (list business) :=
  for_eachM grid_points
    (fun pt businesses => search_point fuel pt radius api_key None businesses)
    [].

Definition get_businesses_grid_search (fuel : nat)
           (center_lat center_lng : float) (radius : Z)
           (api_key : option string) : M (list business) :=
  let* grid_points :=
    lift (get_grid_points (math_cos E) center_lat center_lng radius 10) in
  let* businesses := collect_businesses fuel grid_points radius api_key in
  ret (unique_businesses businesses).

(** *** [get_business_details] *)

Definition get_business_details (place_id : option string)
           (api_key : option string) : M details :=
  call (fun t => details_api E t place_id api_key)
       (DetailsCall place_id api_key).

(** *** [load_previous_results] *)

Definition previous_pattern (zip_code : string) (n : Z) : string :=
  zip_code +:+ "." +:+ pretty n +:+ ".*.csv".

(** [previous_stores] is only ever tested against the name of a business,
    a text or [None].  The set is modelled by its members of these two
    kinds: of the values of a ['Name'] column, the texts are added; a value
    read as a number equals no name, whatever the text of the file was. *)
Definition load_previous_results (zip_code : string) (n : Z)
  : M (gset (option string)) :=
  let* existing_files :=
    (fun t => let pat := previous_pattern zip_code n in
              let fs := glob_fs E t pat in
              (Ok fs, t ++ [GlobCall pat fs])) in
  for_eachM existing_files
    (fun file previous_stores =>
       let* names := call (fun t => read_csv_names E t file)
                          (ReadCsvCall file) in
       ret (previous_stores ∪ list_to_set (Some <$> texts names)))
    ∅.

(** *** [filter_businesses] *)

Definition unwanted_types : list string :=
  ["point_of_interest"; "establishment"].

(** The text stored under ['Types'], from the text under ['types']. *)
Definition filtered_types_string (types : string) : string :=
  let business_types := PyStr.split "," types in
  let filtered_types :=
    PyStr.strip <$>
      filter (fun t => t ∉ unwanted_types) business_types in
  PyStr.join ", " filtered_types.

(** A text that is present and not empty. *)
Definition non_empty (o : option string) : Prop :=
  exists s, o = Some s /\ s <> ""%string.

(** A text that is empty or absent. *)
Definition empty_or_absent (o : option string) : Prop :=
  o = None \/ o = Some ""%string.

(** The test [details['phone'] and not details['website']]. *)
Definition qualifies (d : details) : bool :=
  PyStr.truthy (phone d) && negb (PyStr.truthy (website d)).

Definition make_row (b : business) (d : details) : row :=
  {| Name := name b; Address := address b; Phone := phone d;
     Types := filtered_types_string (types b) |}.

(** The [for] loop of [filter_businesses], from the businesses that are
    left and the [results] so far.  A business whose name is in
    [previous_stores] is passed over; the others cost one details call,
    and the loop is left as soon as [len(results) >= n] after one. *)
Fixpoint filter_loop (api_key : option string)
         (previous_stores : gset (option string)) (n : Z)
         (businesses : list business) (results : list row)
  : M (list row) :=
  match businesses with
  | [] => ret results
  | b :: rest =>
      if decide (name b ∈ previous_stores)
      then filter_loop api_key previous_stores n rest results
      else
        let* d := get_business_details (place_id b) api_key in
        let results' :=
          if qualifies d then results ++ [make_row b d] else results in
        if Z.of_nat (length results') >=? n
        then ret results'
        else filter_loop api_key previous_stores n rest results'
  end.

Definition filter_businesses (businesses : list business)
           (api_key : option string)
           (previous_stores : gset (option string)) (n : Z)
  : M (list row) :=
  filter_loop api_key previous_stores n businesses [].

(** *** [main] *)

(** The command line, and the [API_KEY] of the process environment. *)
Record arguments : Type := {
  zip_code : string;
  n : Z;
  minRadius : Z;
  API_KEY : option string
}.

(** The variables the [while] loop of [main] updates. *)
Record search_state : Type := {
  max_radius : Z;
  found_businesses : list row;
  previous_stores : gset (option string)
}.

(** One turn of the [while] loop. *)
Definition expand_step (fuel : nat) (args : arguments) (lat lng : float)
           (st : search_state) : M search_state :=
  let max_radius' := max_radius st + 500 in
  let* businesses :=
    get_businesses_grid_search fuel lat lng max_radius' (API_KEY args) in
  let* filtered_businesses :=
    filter_businesses businesses (API_KEY args) (previous_stores st)
                      (n args - Z.of_nat (length (found_businesses st))) in
  ret {| max_radius := max_radius';
         found_businesses := found_businesses st ++ filtered_businesses;
         previous_stores :=
           previous_stores st ∪ list_to_set (Name <$> filtered_businesses) |}.

(** [while len(found_businesses) < args.n: ...], for at most [turns]
    turns. *)
Fixpoint expand_loop (turns fuel : nat) (args : arguments)
         (lat lng : float) (st : search_state) : M search_state :=
  if Z.of_nat (length (found_businesses st)) <? n args
  then match turns with
       | O => out_of_fuel
       | S turns' =>
           let* st' := expand_step fuel args lat lng st in
           expand_loop turns' fuel args lat lng st'
       end
  else ret st.

Definition output_file_name (args : arguments) (max_radius : Z) : string :=
  zip_code args +:+ "." +:+ pretty (n args) +:+ "."
           +:+ pretty max_radius +:+ ".csv".

(** [if lat and lng]: both are numbers, and neither is zero. *)
Definition located (lat lng : option float) : option (float * float) :=
  match lat, lng with
  | Some la, Some ln =>
      if PyFloat.truthy la && PyFloat.truthy ln then Some (la, ln) else None
  | _, _ => None
  end.

Definition main (turns fuel : nat) (args : arguments) : M unit :=
  let* ll := get_lat_lng (zip_code args) (API_KEY args) in
  match located (fst ll) (snd ll) with
  | Some (lat, lng) =>
      let* previous := load_previous_results (zip_code args) (n args) in
      let* st :=
        expand_loop turns fuel args lat lng
          {| max_radius := minRadius args; found_businesses := [];
             previous_stores := previous |} in
      fun t =>
        (Ok tt,
         t ++ [ToCsvCall (output_file_name args (max_radius st))
                         (found_businesses st)])
  | None => ret tt
  end.

End Program.

(** ** Notions for further properties *)

(** The elements of a list in the order of their first occurrence. *)
Fixpoint first_occurrences {A} `{EqDecision A} (l : list A) : list A :=
  match l with
  | [] => []
  | x :: l' => x :: filter (fun y => y <> x) (first_occurrences l')
  end.

(** The result items of the pages received, in the order of the calls. *)
Definition received (calls : list event) : list place :=
  calls ≫= fun ev =>
    match ev with
    | NearbyCall _ (Reply pg) => results pg
    | _ => []
    end.

(** The parameters of the request that [search_point] sends with the page
    token [token]. *)
Definition params_of (pt : point) (metres : Z) (api_key token : option string)
  : nearby_params :=
  {| location := pt; radius := metres; type_ := "store"; key := api_key;
     pagetoken := if PyStr.truthy token then token else None |}.

(** The businesses of one page, appended to [bs]. *)
Definition add_page (pg : page) (bs : list business)
  : outcome (list business) :=
  for_each (results pg)
           (fun place bs => obind (business_of_place place)
                                  (fun b => Ok (bs ++ [b])))
           bs.

(** The runs of the [while True] loop at one grid point, as a relation
    between the page token and the businesses it starts with, the calls it
    makes and its outcome. *)
Inductive point_run (pt : point) (metres : Z) (api_key : option string)
  : nat -> option string -> list business -> list event
    -> outcome (list business) -> Prop :=
| point_out_of_fuel token bs :
    point_run pt metres api_key 0 token bs [] OutOfFuel
| point_fails fuel token bs e :
    point_run pt metres api_key (S fuel) token bs
      [NearbyCall (params_of pt metres api_key token) (Fails e)] (Raise e)
| point_bad_page fuel token bs pg e :
    add_page pg bs = Raise e ->
    point_run pt metres api_key (S fuel) token bs
      [NearbyCall (params_of pt metres api_key token) (Reply pg)] (Raise e)
| point_last_page fuel token bs pg bs' :
    add_page pg bs = Ok bs' ->
    PyStr.truthy (next_page_token pg) = false ->
    point_run pt metres api_key (S fuel) token bs
      [NearbyCall (params_of pt metres api_key token) (Reply pg)] (Ok bs')
| point_next_page fuel token bs pg bs' calls o :
    add_page pg bs = Ok bs' ->
    PyStr.truthy (next_page_token pg) = true ->
    point_run pt metres api_key fuel (next_page_token pg) bs' calls o ->
    point_run pt metres api_key (S fuel) token bs
      (NearbyCall (params_of pt metres api_key token) (Reply pg) :: calls) o.

(** The runs of the loop over the grid points. *)
Inductive pass_run (fuel : nat) (metres : Z) (api_key : option string)
  : list point -> list business -> list event
    -> outcome (list business) -> Prop :=
| pass_done bs :
    pass_run fuel metres api_key [] bs [] (Ok bs)
| pass_stops pt pts bs calls o :
    point_run pt metres api_key fuel None bs calls o ->
    (forall bs', o <> Ok bs') ->
    pass_run fuel metres api_key (pt :: pts) bs calls o
| pass_goes_on pt pts bs bs1 calls1 calls2 o :
    point_run pt metres api_key fuel None bs calls1 (Ok bs1) ->
    pass_run fuel metres api_key pts bs1 calls2 o ->
    pass_run fuel metres api_key (pt :: pts) bs (calls1 ++ calls2) o.

(** The calls of the pagination at one grid point, started with the page
    token [token]: every request carries the token of the page before it,
    and nothing follows a failure or a page without token. *)
Fixpoint follows_tokens (pt : point) (metres : Z) (api_key : option string)
         (token : option string) (calls : list event) : Prop :=
  match calls with
  | [] => True
  | NearbyCall p r :: rest =>
      p = params_of pt metres api_key token /\
      match r with
      | Reply pg =>
          if PyStr.truthy (next_page_token pg)
          then follows_tokens pt metres api_key (next_page_token pg) rest
          else rest = []
      | Fails _ => rest = []
      end
  | _ :: _ => False
  end.

(** The calls of a computation all satisfy [P], whatever its outcome. *)
Definition emits {A} (P : event -> Prop) (m : M A) : Prop :=
  forall t, exists calls, snd (m t) = t ++ calls /\ Forall P calls.

Definition is_geocode_call (ev : event) : Prop :=
  match ev with GeocodeCall _ _ _ => True | _ => False end.
Definition is_nearby_call (ev : event) : Prop :=
  match ev with NearbyCall _ _ => True | _ => False end.
Definition is_details_call (ev : event) : Prop :=
  match ev with DetailsCall _ _ _ => True | _ => False end.
Definition is_file_read (ev : event) : Prop :=
  match ev with GlobCall _ _ | ReadCsvCall _ _ => True | _ => False end.
Definition is_write (ev : event) : Prop :=
  match ev with ToCsvCall _ _ => True | _ => False end.

(** The row a business gives when the details service answers [D id] for
    the identifier [id]: none when its name is in [previous_stores] or its
    details do not qualify. *)
Definition row_of (previous_stores : gset (option string))
           (D : option string -> details) (b : business) : option row :=
  if decide (name b ∈ previous_stores) then None
  else if qualifies (D (place_id b))
       then Some (make_row b (D (place_id b)))
       else None.

(** A call of the loop of [main] started at the radius [start]: a details
    call, or a nearby search whose radius is [start] plus between 1 and
    [turns] steps of 500 metres. *)
Definition expanding_call (start : Z) (turns : nat) (ev : event) : Prop :=
  match ev with
  | DetailsCall _ _ _ => True
  | NearbyCall p _ =>
      exists j : nat, (1 <= j <= turns)%nat /\
                      radius p = start + 500 * Z.of_nat j
  | _ => False
  end.

(** A nearby search with the radius [metres]. *)
Definition searches_at (metres : Z) (ev : event) : Prop :=
  exists p r, ev = NearbyCall p r /\ radius p = metres.

(** The calls of the turns of the loop of [main], turn by turn, for a loop
    that has reached the radius [metres] after the calls [t]: the calls of a
    turn are the searches of one grid search with the radius of the turn
    before plus 500 metres, followed by the details calls of the filter. *)
Fixpoint turns_from (E : Env) (fuel : nat) (lat lng : float)
         (api_key : option string) (metres : Z) (t : trace)
         (by_turn : list (list event * list event)) : Prop :=
  match by_turn with
  | [] => True
  | (searches, lookups) :: rest =>
      snd (get_businesses_grid_search E fuel lat lng (metres + 500)
                                      api_key t)
      = t ++ searches /\
      Forall (searches_at (metres + 500)) searches /\
      Forall is_details_call lookups /\
      turns_from E fuel lat lng api_key (metres + 500)
                 (t ++ searches ++ lookups) rest
  end.

(** The values read from the ['Name'] columns of the earlier result files,
    in the calls of a run. *)
Definition cells_read (calls : list event) : list cell :=
  calls ≫= fun ev =>
    match ev with
    | ReadCsvCall _ (Reply cells) => cells
    | _ => []
    end.

(** The names read as texts from the earlier result files, in the calls of
    a run. *)
Definition names_read (calls : list event) : list string :=
  calls ≫= fun ev =>
    match ev with
    | ReadCsvCall _ (Reply names) => texts names
    | _ => []
    end.

(** ** A sample environment

    A store locator answering around latitude 60: [Alpha] has a website,
    [Beta] and [Gamma] have none.  Within 500 metres only [Alpha] is found;
    beyond, every point answers in two pages.  One earlier result file names
    the store [Old]. *)

Module Sample.

Local Open Scope string_scope.

(** A stand-in for the C library's cosine that has its values at the two
    latitudes of the examples, 60 degrees and the equator, and at the
    infinities, where it is NaN. *)
Definition cos_table (x : float) : float :=
  if PrimFloat.eqb x 0x1.0c152382d7365p+0%float
  then 0x1.0000000000001p-1%float
  else if is_infinity x then nan
  else 1%float.

Definition store (nm id : string) (ts : list string) : place :=
  {| p_name := Some nm; p_place_id := Some id;
     p_vicinity := Some "1 Main St"; p_types := Some ts |}.

Definition Alpha : place :=
  store "Alpha" "idA" ["bakery"; "point_of_interest"; "establishment"].
Definition Beta : place :=
  store "Beta" "idB" ["point_of_interest"; "establishment"; "bakery"].
Definition Gamma : place := store "Gamma" "idC" ["store"].

(** A result item without [place_id]. *)
Definition Nameless : place :=
  {| p_name := Some "Kiosk"; p_place_id := None;
     p_vicinity := Some "2 Main St"; p_types := Some ["store"] |}.

Definition nearby (t : trace) (p : nearby_params) : reply page :=
  if (radius p <=? 500)%Z
  then Reply {| results := [Alpha]; next_page_token := None |}
  else match pagetoken p with
       | None => Reply {| results := [Alpha; Beta];
                          next_page_token := Some "p2" |}
       | Some _ => Reply {| results := [Gamma; Beta];
                            next_page_token := Some "" |}
       end.

Definition with_website : details :=
  {| phone := Some "555-0100"; website := Some "http://alpha.example" |}.
Definition phone_only : details :=
  {| phone := Some "555-0100"; website := None |}.

Definition lookup (t : trace) (id api_key : option string) : reply details :=
  if decide (id = Some "idA") then Reply with_website else Reply phone_only.

Definition env : Env :=
  {| math_cos := cos_table;
     geocode_api := fun _ _ _ => Reply [(60%float, 25%float)];
     nearby_api := nearby;
     details_api := lookup;
     glob_fs := fun _ _ => ["98033.2.500.csv"];
     read_csv_names := fun _ _ => Reply [Text "Old"] |}.

Definition args : arguments :=
  {| zip_code := "98033"; n := 2; minRadius := 0; API_KEY := Some "key" |}.

(** One store is wanted, and [Beta] was found by an earlier run. *)
Definition args_one : arguments :=
  {| zip_code := "98033"; n := 1; minRadius := 0; API_KEY := Some "key" |}.

Definition start (previous : list string) (a : arguments) : search_state :=
  {| max_radius := minRadius a; found_businesses := [];
     previous_stores := list_to_set (Some <$> previous) |}.

Definition business_of (p : place) : business :=
  {| name := p_name p; place_id := p_place_id p; address := p_vicinity p;
     types := PyStr.join ", " (default [] (p_types p)) |}.

(** Ten stores that all have a phone and no website. *)
Definition ten : list business :=
  (fun i : nat =>
     {| name := Some ("Store " +:+ pretty i);
        place_id := Some ("id" +:+ pretty i);
        address := None; types := "store" |}) <$> seq 0 10.

(** A result item without [types]. *)
Definition Untyped : place :=
  {| p_name := Some "Depot"; p_place_id := Some "idD";
     p_vicinity := Some "3 Main St"; p_types := None |}.

(** The answers of [lookup], by identifier. *)
Definition details_of (id : option string) : details :=
  if decide (id = Some "idA") then with_website else phone_only.

(** No store is wanted. *)
Definition args_none : arguments :=
  {| zip_code := "98033"; n := 0; minRadius := 250; API_KEY := Some "key" |}.

(** The nearby search is down at the first call, and up afterwards. *)
Definition env_down_once : Env :=
  {| math_cos := cos_table;
     geocode_api := geocode_api env;
     nearby_api := fun t p =>
                     match t with
                     | [] => Fails ConnectionError
                     | _ => nearby t p
                     end;
     details_api := lookup;
     glob_fs := glob_fs env;
     read_csv_names := read_csv_names env |}.

(** Every point answers with the one item that has no [place_id]. *)
Definition env_nameless : Env :=
  {| math_cos := cos_table;
     geocode_api := geocode_api env;
     nearby_api := fun _ _ =>
                     Reply {| results := [Nameless];
                              next_page_token := None |};
     details_api := lookup;
     glob_fs := glob_fs env;
     read_csv_names := read_csv_names env |}.

(** A second result item without [place_id], and a service that answers
    every request with the two of them. *)
Definition Stall : place :=
  {| p_name := Some "Stall"; p_place_id := None;
     p_vicinity := Some "4 Main St"; p_types := Some ["store"] |}.

Definition env_two_nameless : Env :=
  {| math_cos := cos_table;
     geocode_api := geocode_api env;
     nearby_api := fun _ _ =>
                     Reply {| results := [Nameless; Stall];
                              next_page_token := None |};
     details_api := lookup;
     glob_fs := glob_fs env;
     read_csv_names := read_csv_names env |}.

(** A store whose name is made of digits, which an earlier run has found:
    pandas reads the name back from the file as the int [123]. *)
Definition Numbered : place := store "123" "idN" ["store"].

Definition env_numbered : Env :=
  {| math_cos := cos_table;
     geocode_api := geocode_api env;
     nearby_api := fun _ _ =>
                     Reply {| results := [Numbered];
                              next_page_token := None |};
     details_api := lookup;
     glob_fs := fun _ _ => ["98033.1.500.csv"];
     read_csv_names := fun _ _ => Reply [IntCell 123] |}.

(** Every point answers with [Alpha] and the item without [types]. *)
Definition env_untyped : Env :=
  {| math_cos := cos_table;
     geocode_api := geocode_api env;
     nearby_api := fun _ _ =>
                     Reply {| results := [Alpha; Untyped];
                              next_page_token := None |};
     details_api := lookup;
     glob_fs := glob_fs env;
     read_csv_names := read_csv_names env |}.

(** The geocoder places the ZIP code on the equator. *)
Definition env_equator : Env :=
  {| math_cos := cos_table;
     geocode_api := fun _ _ _ => Reply [(0%float, 25%float)];
     nearby_api := nearby;
     details_api := lookup;
     glob_fs := glob_fs env;
     read_csv_names := read_csv_names env |}.

End Sample.

(** * Properties *)

Section FloatFacts.

(** ** Facts on binary64 numbers *)

(** Every number but NaN compares equal to itself. *)
Lemma SFcompare_refl (x : spec_float) :
  x <> S754_nan -> SFcompare x x = Some Eq.
Proof.
  destruct x as [s|s| |s m e]; simpl; try congruence; intros _.
  - by destruct s.
  - destruct s; rewrite Z.compare_refl, ?Pos.compare_cont_refl; try done.
    all: by rewrite Pos.compare_refl.
Qed.

(** [is_nan], [=? 0] and [is_finite] in terms of the specification of
    floats. *)
Lemma is_nan_false (x : float) :
  is_nan x = false <-> Prim2SF x <> S754_nan.
Proof.
  unfold is_nan. rewrite FloatAxioms.eqb_spec. unfold SFeqb. split.
  - intros H Hn. rewrite Hn in H. simpl in H. discriminate.
  - intros H. by rewrite SFcompare_refl.
Qed.

Lemma is_zero_false (x : float) :
  PrimFloat.eqb x 0 = false -> forall s, Prim2SF x <> S754_zero s.
Proof.
  rewrite FloatAxioms.eqb_spec. intros H s Hx. rewrite Hx in H.
  by vm_compute in H.
Qed.

Lemma is_finite_true (x : float) :
  is_finite x = true ->
  (exists s, Prim2SF x = S754_zero s) \/ (exists s m e, Prim2SF x = S754_finite s m e).
Proof.
  unfold is_finite, is_nan, is_infinity.
  rewrite !FloatAxioms.eqb_spec, abs_spec. 
  destruct (Prim2SF x) as [s|s| |s m e]; eauto.
  - destruct s; vm_compute; discriminate.
  - vm_compute; discriminate.
Qed.

(** Adding the offset number zero: [c + (0 * off) / k == c] when [c], [off]
    and [k] are numbers, [off] is finite and [k] is not zero. *)
Lemma zero_offset_exact (c off k : float) :
  is_nan c = false -> is_finite off = true ->
  is_nan k = false -> PrimFloat.eqb k 0 = false ->
  PrimFloat.eqb (c + (PyFloat.nearest 0 * off) / k) c = true.
Proof.
  intros Hc Hoff Hk Hk0.
  apply is_nan_false in Hc. apply is_nan_false in Hk.
  pose proof (is_zero_false _ Hk0) as Hz.
  rewrite FloatAxioms.eqb_spec, add_spec, div_spec, mul_spec.
  change (Prim2SF (PyFloat.nearest 0)) with (S754_zero false).
  assert (exists s, SF64div (SF64mul (S754_zero false) (Prim2SF off)) (Prim2SF k)
                    = S754_zero s) as [s ->].
  { destruct (is_finite_true _ Hoff) as [[s ->]|(s & m & e & ->)];
      destruct (Prim2SF k) as [sk|sk| |sk mk ek]; simpl; eauto;
      try congruence; by destruct (Hz sk). }
  unfold SFeqb.
  destruct (Prim2SF c) as [sc|sc| |sc mc ec] eqn:Ec; try congruence.
  - by destruct sc, s.
  - by destruct sc.
  - unfold SF64add, SFadd. by rewrite SFcompare_refl.
Qed.

(** The conversion of ints on the edge of the doubles: the largest int
    that converts gives the largest double, the next one rounds to an
    infinity and is refused. *)
Example float_of_int_range :
  PyFloat.float_of_int (PyFloat.int_overflow - 1)
  = Ok 0x1.fffffffffffffp+1023%float /\
  is_infinity (PyFloat.nearest PyFloat.int_overflow) = true /\
  PyFloat.float_of_int PyFloat.int_overflow = Raise OverflowError /\
  PyFloat.float_of_int (- 10 ^ 400) = Raise OverflowError.
Proof. repeat split; by vm_compute. Qed.

(** [int / int] rounds the exact quotient once, whatever the size of the
    operands, and raises only when the quotient is out of range. *)
Example truediv_int_rounds_once :
  PyFloat.truediv_int 9007199254740995 5 = Ok 1801439850948199%float /\
  PyFloat.truediv_int (10 ^ 400) (10 ^ 399) = Ok 10%float /\
  PyFloat.truediv_int (10 ^ 400) 5 = Raise OverflowError /\
  PyFloat.truediv_int 1 (10 ^ 400) = Ok 0%float /\
  PyFloat.truediv_int 0 (-5) = Ok (- 0)%float /\
  PyFloat.truediv_int (10 ^ 400) 0 = Raise ZeroDivisionError.
Proof. repeat split; by vm_compute. Qed.

End FloatFacts.

Section LoopFacts.
Context {A B : Type}.

(** A loop that appends one element per turn appends the image of the
    list. *)
Lemma for_each_app_each (f : A -> outcome B) (g : A -> B) (xs : list A) :
  (forall x, x ∈ xs -> f x = Ok (g x)) ->
  forall s,
    for_each xs (fun x s => obind (f x) (fun p => Ok (s ++ [p]))) s
    = Ok (s ++ (g <$> xs)).
Proof.
  induction xs as [|x xs IH]; intros Hf s; simpl.
  - by rewrite app_nil_r.
  - rewrite Hf by left. simpl. rewrite IH.
    + by rewrite <- app_assoc.
    + intros y Hy. apply Hf. by right.
Qed.

(** A loop that appends one block per turn appends the blocks in order. *)
Lemma for_each_app_rows (body : A -> list B -> outcome (list B))
      (g : A -> list B) (xs : list A) :
  (forall x s, x ∈ xs -> body x s = Ok (s ++ g x)) ->
  forall s, for_each xs body s = Ok (s ++ (xs ≫= g)).
Proof.
  induction xs as [|x xs IH]; intros Hb s.
  - simpl. by rewrite app_nil_r.
  - rewrite bind_cons. simpl. rewrite Hb by left. simpl. rewrite IH.
    + by rewrite <- app_assoc.
    + intros y s' Hy. apply Hb. by right.
Qed.
End LoopFacts.

Section ProductFacts.
Context {A B C : Type} (f : A -> B -> C).

(** The rows of a product, block by block. *)
Lemma length_product (xs : list A) (ys : list B) :
  length (xs ≫= fun x => f x <$> ys) = (length xs * length ys)%nat.
Proof.
  induction xs as [|x xs IH]; [done|].
  rewrite bind_cons, length_app, length_fmap, IH. simpl. lia.
Qed.

(** Row [a], column [b] of a product is at index [a * width + b]. *)
Lemma lookup_product (xs : list A) (ys : list B) (a b : nat) x y :
  xs !! a = Some x -> ys !! b = Some y ->
  (xs ≫= fun x => f x <$> ys) !! (a * length ys + b)%nat = Some (f x y).
Proof.
  revert a. induction xs as [|x' xs IH]; intros a Ha Hb; [done|].
  rewrite bind_cons. destruct a as [|a]; simpl in Ha |- *.
  - injection Ha as ->. rewrite lookup_app_l.
    + by rewrite list_lookup_fmap, Hb.
    + rewrite length_fmap. by eapply lookup_lt_Some.
  - rewrite lookup_app_r by (rewrite length_fmap; lia).
    rewrite length_fmap.
    replace (length ys + a * length ys + b - length ys)%nat
      with (a * length ys + b)%nat by lia.
    by apply IH.
Qed.
End ProductFacts.

Section GridFacts.
Variable math_cos : float -> float.

(** An int below the overflow bound converts. *)
Lemma float_of_int_ok (z : Z) :
  Z.abs z < PyFloat.int_overflow ->
  PyFloat.float_of_int z = Ok (PyFloat.nearest z).
Proof.
  intros Hz. unfold PyFloat.float_of_int.
  by destruct (Z.ltb_spec (Z.abs z) PyFloat.int_overflow); [|lia].
Qed.

(** The step that [int / int] returns is a finite number. *)
Lemma truediv_int_finite (a b : Z) (q : float) :
  PyFloat.truediv_int a b = Ok q -> is_finite q = true.
Proof.
  unfold PyFloat.truediv_int. destruct (b =? 0); [done|].
  destruct (is_finite (PyFloat.quotient a b)) eqn:Hq; [|done].
  by intros [= <-].
Qed.

(** A product is NaN as soon as its second factor is. *)
Lemma is_nan_mul_r (a r : float) :
  is_nan (a * r) = false -> is_nan r = false.
Proof.
  rewrite !is_nan_false, mul_spec. intros H Hr. apply H. rewrite Hr.
  by destruct (Prim2SF a).
Qed.

(** The cosine returns when the divisor is a number. *)
Lemma py_cos_ok (clat : float) :
  is_nan (lng_divisor math_cos clat) = false ->
  py_cos math_cos (clat * PyFloat.pi / PyFloat.nearest 180)
  = Ok (math_cos (clat * PyFloat.pi / PyFloat.nearest 180)).
Proof.
  intros H. apply is_nan_mul_r in H. unfold py_cos. by rewrite H.
Qed.

(** With offsets that convert and a divisor that is a number other than
    zero, no point raises. *)
Lemma grid_point_ok (clat clng offset : float) (i j : Z) :
  Z.abs i < PyFloat.int_overflow -> Z.abs j < PyFloat.int_overflow ->
  is_nan (lng_divisor math_cos clat) = false ->
  PrimFloat.eqb (lng_divisor math_cos clat) 0 = false ->
  grid_point math_cos clat clng offset i j
  = Ok (offset_point math_cos clat clng offset i j).
Proof.
  intros Hi Hj Hnan H. unfold grid_point.
  rewrite (float_of_int_ok i Hi), (float_of_int_ok j Hj). cbn [obind].
  rewrite (py_cos_ok clat Hnan). cbn [obind].
  unfold PyFloat.truediv. fold (lng_divisor math_cos clat).
  by rewrite H.
Qed.

(** For an even [d], [-d // 2] is [-(d // 2)]. *)
Lemma even_half (d : Z) :
  Z.even d = true -> d = 2 * (d / 2) /\ - d / 2 = - (d / 2).
Proof.
  intros Hd. pose proof (Zmod_even d) as Hm. rewrite Hd in Hm.
  split; Z.div_mod_to_equations; lia.
Qed.

(** The grid is the product of the range of offsets with itself, rows
    first. *)
Lemma get_grid_points_product (clat clng : float) (radius d : Z)
      (offset : float) :
  PyFloat.truediv_int radius (d / 2) = Ok offset ->
  (forall i, - d / 2 <= i <= d / 2 -> Z.abs i < PyFloat.int_overflow) ->
  is_nan (lng_divisor math_cos clat) = false ->
  PrimFloat.eqb (lng_divisor math_cos clat) 0 = false ->
  let rng := py_range (- d / 2) (d / 2 + 1) in
  get_grid_points math_cos clat clng radius d
  = Ok (rng ≫= fun i => offset_point math_cos clat clng offset i <$> rng).
Proof.
  intros Hoff Hrng Hnan HD rng. unfold get_grid_points.
  rewrite Hoff. cbn [obind]. fold rng.
  assert (forall i, i ∈ rng -> Z.abs i < PyFloat.int_overflow) as Hin.
  { intros i Hi. apply Hrng. unfold rng, py_range in Hi.
    apply elem_of_seqZ in Hi. lia. }
  rewrite (for_each_app_rows _
             (fun i => offset_point math_cos clat clng offset i <$> rng)).
  - done.
  - intros i s Hi.
    apply (for_each_app_each
             (fun j => grid_point math_cos clat clng offset i j)).
    intros j Hj. apply grid_point_ok; auto.
Qed.
End GridFacts.

(** C7.  The claim fails for a radius beyond the floats, for an infinite
    latitude and for a centre that is NaN; within these limits it holds.
    For an even positive density whose half converts to a float, a radius
    whose step [radius / (density // 2)] is a float [offset], and a
    longitude divisor [111320 * cos(center_lat * pi / 180)] that is a
    number other than zero, [get_grid_points] returns [(density + 1)^2]
    points; the point in row [row] and column [col], rows first, is
    [(center_lat + (i * offset) / 111320,
      center_lng + (j * offset) / (111320 * cos(center_lat * pi / 180)))]
    for [i = row - density / 2] and [j = col - density / 2] converted to the
    nearest float; and when the centre is a number, the point of the middle
    row and column equals the centre. *)
Theorem get_grid_points_full_grid
        (math_cos : float -> float) (center_lat center_lng : float)
        (radius density : Z) (offset : float) :
  0 < density -> Z.even density = true ->
  density / 2 < 2 ^ 1024 - 2 ^ 970 ->
  PyFloat.truediv_int radius (density / 2) = Ok offset ->
  let divisor :=
    (111320 * math_cos (center_lat * 0x1.921fb54442d18p+1 / 180))%float in
  is_nan divisor = false -> PrimFloat.eqb divisor 0 = false ->
  exists points : list point,
    get_grid_points math_cos center_lat center_lng radius density
    = Ok points /\
    length points = Z.to_nat ((density + 1) ^ 2) /\
    (forall row col : nat,
        Z.of_nat row <= density -> Z.of_nat col <= density ->
        let i := SF2Prim (binary_normalize prec emax
                            (Z.of_nat row - density / 2) 0 false) in
        let j := SF2Prim (binary_normalize prec emax
                            (Z.of_nat col - density / 2) 0 false) in
        points !! (row * Z.to_nat (density + 1) + col)%nat
        = Some ((center_lat + (i * offset) / 111320)%float,
                (center_lng + (j * offset) / divisor)%float)) /\
    (is_nan center_lat = false -> is_nan center_lng = false ->
     exists p,
       points !! (Z.to_nat (density / 2) * Z.to_nat (density + 1)
                  + Z.to_nat (density / 2))%nat = Some p /\
       PrimFloat.eqb (fst p) center_lat = true /\
       PrimFloat.eqb (snd p) center_lng = true).
Proof.
  intros Hpos Heven Hbound Hoff divisor Hnan HD.
  change divisor with (lng_divisor math_cos center_lat) in *.
  destruct (even_half density Heven) as [Hd Hneg].
  assert (forall i, - density / 2 <= i <= density / 2 ->
                    Z.abs i < PyFloat.int_overflow) as Hrng.
  { intros i Hi. change PyFloat.int_overflow with (2 ^ 1024 - 2 ^ 970). lia. }
  pose proof (get_grid_points_product math_cos center_lat center_lng
                radius density offset Hoff Hrng Hnan HD) as Hpts.
  cbv zeta in Hpts. rewrite Hneg in Hpts.
  unfold py_range in Hpts.
  replace (density / 2 + 1 - - (density / 2)) with (density + 1) in Hpts by lia.
  set (rng := seqZ (- (density / 2)) (density + 1)) in *.
  assert (length rng = Z.to_nat (density + 1)) as Hlen
      by apply length_seqZ.
  assert (forall row col : nat,
             Z.of_nat row <= density -> Z.of_nat col <= density ->
             (rng ≫= fun i => offset_point math_cos center_lat center_lng
                                offset i <$> rng)
               !! (row * Z.to_nat (density + 1) + col)%nat
             = Some (offset_point math_cos center_lat center_lng offset
                       (Z.of_nat row - density / 2)
                       (Z.of_nat col - density / 2))) as Hlook.
  { intros row col Hr Hc. rewrite <- Hlen.
    apply lookup_product; unfold rng; rewrite lookup_seqZ; lia. }
  exists (rng ≫= fun i => offset_point math_cos center_lat center_lng
                            offset i <$> rng).
  split; [done|]. split; [|split].
  - rewrite length_product, Hlen. lia.
  - intros row col Hr Hc. cbv zeta. by rewrite Hlook.
  - intros Hclat Hclng.
    pose proof (truediv_int_finite radius (density / 2) offset Hoff) as Hfin.
    exists (offset_point math_cos center_lat center_lng offset 0 0).
    split; [|split].
    + rewrite Hlook by lia. do 2 f_equal; lia.
    + by apply zero_offset_exact.
    + by apply zero_offset_exact.
Qed.

(** The grid of density 10 around latitude 60, longitude 25, for a radius
    of 500 metres: 121 points, the centre at index 60, and the corner of
    the first row and column a step of 100 metres times 5 to the south and
    to the west. *)
Lemma get_grid_points_full_grid_witness :
  0 < 10 /\ Z.even 10 = true /\ 10 / 2 < 2 ^ 1024 - 2 ^ 970 /\
  PyFloat.truediv_int 500 (10 / 2) = Ok 100%float /\
  is_nan (111320 * Sample.cos_table (60 * 0x1.921fb54442d18p+1 / 180))
  = false /\
  PrimFloat.eqb
    (111320 * Sample.cos_table (60 * 0x1.921fb54442d18p+1 / 180)) 0
  = false /\
  exists (points : list point) (p : point),
    get_grid_points Sample.cos_table 60 25 500 10 = Ok points /\
    length points = 121%nat /\
    points !! 0%nat
    = Some ((60 + (-5 * 100) / 111320)%float,
            (25 + (-5 * 100) / (111320 * 0x1.0000000000001p-1))%float) /\
    points !! 60%nat = Some p /\
    PrimFloat.eqb (fst p) 60 = true /\ PrimFloat.eqb (snd p) 25 = true.
Proof.
  assert (0 < 10) as Hpos by lia.
  assert (Z.even 10 = true) as Heven by reflexivity.
  assert (10 / 2 < 2 ^ 1024 - 2 ^ 970) as Hbound by reflexivity.
  assert (PyFloat.truediv_int 500 (10 / 2) = Ok 100%float) as Hoff
      by reflexivity.
  assert (is_nan (111320 * Sample.cos_table
                             (60 * 0x1.921fb54442d18p+1 / 180)) = false)
    as Hnan by reflexivity.
  assert (PrimFloat.eqb
            (111320 * Sample.cos_table (60 * 0x1.921fb54442d18p+1 / 180)) 0
          = false) as Hdiv by reflexivity.
  refine (conj Hpos (conj Heven (conj Hbound (conj Hoff
            (conj Hnan (conj Hdiv _)))))).
  destruct (get_grid_points_full_grid Sample.cos_table 60 25 500 10 100
              Hpos Heven Hbound Hoff Hnan Hdiv)
    as (points & Hpts & Hlen & Hat & Hcentre).
  destruct Hcentre as (p & Hp & Hlat & Hlng); try reflexivity.
  exists points, p.
  split; [exact Hpts|]. split; [exact Hlen|].
  split; [exact (Hat 0%nat 0%nat ltac:(lia) ltac:(lia))|].
  split; [exact Hp|]. split; [exact Hlat|exact Hlng].
Defined.

(** Where the claim as stated fails: a radius beyond the floats raises
    [OverflowError] at the step; at an infinite latitude the C cosine
    answers NaN and [math.cos] raises [ValueError]; a density whose offsets
    do not convert raises [OverflowError] at the first point; and around a
    centre that is NaN the middle point is not equal to the centre. *)
Lemma get_grid_points_full_grid_counterexample :
  get_grid_points Sample.cos_table 60 25 (10 ^ 400) 10
  = Raise OverflowError /\
  get_grid_points Sample.cos_table infinity 25 500 10 = Raise ValueError /\
  get_grid_points Sample.cos_table 60 25 500 (2 ^ 1026)
  = Raise OverflowError /\
  exists points p,
    get_grid_points Sample.cos_table nan 25 500 10 = Ok points /\
    length points = 121%nat /\
    points !! 60%nat = Some p /\
    PrimFloat.eqb (fst p) nan = false.
Proof.
  split; [by vm_compute|]. split; [by vm_compute|]. split.
  - unfold get_grid_points.
    assert (PyFloat.truediv_int 500 (2 ^ 1026 / 2)
            = Ok 0x1.f4p-1017%float) as -> by (by vm_compute).
    cbn [obind]. unfold py_range.
    rewrite seqZ_cons by (by vm_compute).
    cbn [for_each]. 
    rewrite seqZ_cons by (by vm_compute).
    cbn [for_each]. unfold grid_point at 1.
    assert (PyFloat.float_of_int (- 2 ^ 1026 / 2) = Raise OverflowError)
      as -> by (by vm_compute).
    reflexivity.
  - eexists _, _. split; [by vm_compute|]. split; [reflexivity|].
    split; [reflexivity|]. reflexivity.
Qed.

(** A radius of zero still gives the whole grid, every point at the
    centre. *)
Example get_grid_points_radius_zero :
  get_grid_points Sample.cos_table 60 25 0 2
  = Ok (replicate 9 (60%float, 25%float)).
Proof. reflexivity. Qed.

Section DictFacts.
Context {K V : Type} `{EqDecision K}.
Implicit Types (d : list (K * V)) (k : K) (v : V).

(** ** The merge by [place_id] *)

(** Assigning to a key keeps the keys, or appends the new one. *)
Lemma dict_set_keys d k v :
  (dict_set d k v).*1 = if decide (k ∈ d.*1) then d.*1 else d.*1 ++ [k].
Proof.
  induction d as [|[k' v'] d IH]; csimpl; [done|].
  destruct (decide (k' = k)) as [->|Hne]; csimpl.
  - rewrite decide_True by left. done.
  - rewrite IH. destruct (decide (k ∈ d.*1)) as [Hin|Hnin].
    + rewrite decide_True by (by right). done.
    + rewrite decide_False; [done|].
      intros [?|?]%elem_of_cons; congruence.
Qed.

Lemma dict_set_NoDup d k v : NoDup d.*1 -> NoDup (dict_set d k v).*1.
Proof.
  intros Hd. rewrite dict_set_keys. case_decide; [done|].
  apply NoDup_app. split; [done|]. split; [|apply NoDup_singleton].
  intros x Hx ->%list_elem_of_singleton. done.
Qed.

(** The items after [d[k] = v]: the new item, and the old items of the
    other keys. *)
Lemma elem_of_dict_set d k v k' v' :
  NoDup d.*1 ->
  (k', v') ∈ dict_set d k v <-> (k' = k /\ v' = v) \/ (k' <> k /\ (k', v') ∈ d).
Proof.
  induction d as [|[k0 v0] d IH]; csimpl; intros Hd.
  - rewrite list_elem_of_singleton, elem_of_nil.
    split; [intros [= -> ->]; by left|intros [[-> ->]|[_ []]]; done].
  - apply NoDup_cons in Hd as [Hk0 Hd].
    destruct (decide (k0 = k)) as [->|Hne].
    + rewrite !elem_of_cons. split.
      * intros [[= -> ->]|Hin]; [by left|]. right. split; [|by right].
        intros ->. apply Hk0. apply list_elem_of_fmap. by exists (k, v').
      * intros [[-> ->]|[Hne [[= -> ->]|Hin]]]; [by left|done|by right].
    + rewrite !elem_of_cons, IH by done.
      split; [intros [[= -> ->]|[?|[? ?]]]|intros [?|[? [?|?]]]];
        intuition congruence.
Qed.
End DictFacts.

Section UniqueFacts.

(** Merging one more business keeps the dictionary keyed by [place_id]. *)
Lemma keyed_step d b : keyed d -> keyed (merge_step d b).
Proof.
  intros [Hnd Hk]. split; [by apply dict_set_NoDup|].
  intros k v [[-> ->]|[_ Hin]]%elem_of_dict_set; auto.
Qed.

(** The last business with a given [place_id], one business further to the
    front. *)
Lemma last_seen_cons (b0 : business) (bs : list business) (b : business) :
  last_seen (b0 :: bs) b <->
  last_seen bs b \/
  (b = b0 /\ Forall (fun b' => place_id b' <> place_id b) bs).
Proof.
  split.
  - intros (pre & post & Heq & Hpost). destruct pre as [|x pre]; simpl in Heq.
    + injection Heq as -> ->. by right.
    + injection Heq as -> ->. left. by exists pre, post.
  - intros [(pre & post & -> & Hpost)|[-> Hall]].
    + by exists (b0 :: pre), post.
    + by exists [], bs.
Qed.

Lemma last_seen_place_id (bs : list business) (b : business) :
  last_seen bs b -> place_id b ∈ place_id <$> bs.
Proof.
  intros (pre & post & -> & _). rewrite fmap_app, fmap_cons.
  apply elem_of_app. right. left.
Qed.

(** The items of the dictionary after the merge of [bs] into [d]: the
    businesses seen last in [bs], and the items of [d] whose key does not
    occur in [bs]. *)
Lemma elem_of_merge (bs : list business) :
  forall d, keyed d ->
  keyed (fold_left merge_step bs d) /\
  forall k v,
    (k, v) ∈ fold_left merge_step bs d <->
    (place_id v = k /\ last_seen bs v) \/
    ((k, v) ∈ d /\ Forall (fun b' => place_id b' <> k) bs).
Proof.
  induction bs as [|b bs IH]; intros d Hd; simpl.
  - split; [done|]. intros k v. split.
    + intros Hin. by right.
    + intros [[_ (pre & post & Heq & _)]|[Hin _]]; [|done].
      by destruct pre.
  - destruct (IH (merge_step d b) (keyed_step d b Hd)) as [Hk Hin].
    split; [done|]. intros k v. rewrite Hin. clear Hin IH.
    destruct Hd as [Hnd Hkd]. unfold merge_step at 1.
    rewrite elem_of_dict_set, last_seen_cons, Forall_cons by done.
    split.
    + intros [[Hp Hl]|[[[-> ->]|[Hne Hd]] Hall]].
      * left. auto.
      * left. split; [done|]. right. done.
      * right. split; [done|]. split; [congruence|done].
    + intros [[Hp [Hl|[-> Hall]]]|[Hd [Hne Hall]]].
      * left. auto.
      * right. split; [|by rewrite <- Hp]. left. done.
      * right. split; [|done]. right. split; [congruence|done].
Qed.

Lemma keyed_values d : keyed d -> place_id <$> d.*2 = d.*1.
Proof.
  intros [_ Hk]. induction d as [|[k v] d IH]; [done|]. csimpl.
  rewrite (Hk k v) by left. f_equal. apply IH.
  intros k' v' Hin. apply Hk. by right.
Qed.

Lemma keyed_nil : keyed [].
Proof. split; [constructor|]. intros k v Hin. by apply elem_of_nil in Hin. Qed.

(** Every [place_id] of the list has a business that is seen last. *)
Lemma exists_last_seen (bs : list business) (id : option string) :
  id ∈ place_id <$> bs -> exists b, place_id b = id /\ last_seen bs b.
Proof.
  induction bs as [|b0 bs IH]; csimpl; intros Hin.
  - by apply elem_of_nil in Hin.
  - destruct (decide (id ∈ place_id <$> bs)) as [Hbs|Hbs].
    + destruct (IH Hbs) as (b & Hb & Hl). exists b. split; [done|].
      apply last_seen_cons. by left.
    + apply elem_of_cons in Hin as [->|Hin]; [|done].
      exists b0. split; [done|]. apply last_seen_cons. right.
      split; [done|]. apply Forall_forall. intros b' Hb' Heq.
      apply Hbs. rewrite <- Heq. by apply list_elem_of_fmap_2.
Qed.

Lemma filter_none {A} (P : A -> Prop) `{forall x, Decision (P x)} (l : list A) :
  (forall y, y ∈ l -> ~ P y) -> filter P l = [].
Proof.
  induction l as [|a l IH]; intros Hl; [done|].
  rewrite filter_cons_False by (apply Hl; left).
  apply IH. intros y Hy. apply Hl. by right.
Qed.

(** In a list without repeated keys, one element has a given key. *)
Lemma filter_key_NoDup {A B} `{EqDecision B} (f : A -> B) (l : list A) x :
  NoDup (f <$> l) -> x ∈ l -> filter (fun y => f y = f x) l = [x].
Proof.
  induction l as [|a l IH]; csimpl; intros Hnd Hx.
  - by apply elem_of_nil in Hx.
  - apply NoDup_cons in Hnd as [Ha Hnd].
    apply elem_of_cons in Hx as [->|Hx].
    + rewrite filter_cons_True by done. f_equal.
      apply filter_none. intros y Hy Heq. apply Ha. rewrite <- Heq.
      by apply list_elem_of_fmap_2.
    + rewrite filter_cons_False; [by apply IH|].
      intros Heq. apply Ha. rewrite Heq. by apply list_elem_of_fmap_2.
Qed.

(** The merged list holds the businesses seen last, and nothing else. *)
Lemma elem_of_unique_businesses (businesses : list business) (b : business) :
  b ∈ unique_businesses businesses <-> last_seen businesses b.
Proof.
  unfold unique_businesses.
  destruct (elem_of_merge businesses [] keyed_nil) as [_ Hin].
  rewrite list_elem_of_fmap. split.
  - intros ([k v] & -> & Hkv). apply Hin in Hkv as [[_ Hl]|[Hnil _]]; [done|].
    by apply elem_of_nil in Hnil.
  - intros Hl. exists (place_id b, b). split; [done|].
    apply Hin. by left.
Qed.

(** No [place_id] occurs twice in the merged list. *)
Lemma unique_businesses_NoDup (businesses : list business) :
  NoDup (place_id <$> unique_businesses businesses).
Proof.
  unfold unique_businesses.
  destruct (elem_of_merge businesses [] keyed_nil) as [Hk _].
  rewrite keyed_values by done. apply Hk.
Qed.

End UniqueFacts.


Section FilterFacts.
Variable E : Env.
Variable api_key : option string.
Variable prev : gset (option string).
Variable n : Z.

(** ** The filter *)

(** A details call answers and is logged. *)
Lemma get_business_details_eq (id : option string) (t : trace) :
  get_business_details E id api_key t
  = (match details_api E t id api_key with
     | Reply d => Ok d
     | Fails e => Raise e
     end,
     t ++ [DetailsCall id api_key (details_api E t id api_key)]).
Proof. reflexivity. Qed.

(** One unfolding of the loop at a business that is passed over. *)
Lemma filter_loop_skip (b : business) rest results :
  name b ∈ prev ->
  filter_loop E api_key prev n (b :: rest) results
  = filter_loop E api_key prev n rest results.
Proof. intros Hb. simpl. by rewrite decide_True. Qed.

(** One unfolding of the loop at a business that is looked up. *)
Lemma filter_loop_lookup (b : business) rest results t d :
  name b ∉ prev ->
  details_api E t (place_id b) api_key = Reply d ->
  filter_loop E api_key prev n (b :: rest) results t
  = let results' :=
      if qualifies d then results ++ [make_row b d] else results in
    let t' := t ++ [DetailsCall (place_id b) api_key (Reply d)] in
    if Z.of_nat (length results') >=? n then (Ok results', t')
    else filter_loop E api_key prev n rest results' t'.
Proof.
  intros Hb Hd. simpl. rewrite decide_False by done.
  unfold bind. rewrite get_business_details_eq, Hd. cbv zeta.
  by destruct (Z.of_nat (length _) >=? n).
Qed.

(** A details call that fails ends the loop with its exception. *)
Lemma filter_loop_fails (b : business) rest results t e :
  name b ∉ prev ->
  details_api E t (place_id b) api_key = Fails e ->
  filter_loop E api_key prev n (b :: rest) results t
  = (Raise e, t ++ [DetailsCall (place_id b) api_key (Fails e)]).
Proof.
  intros Hb Hd. simpl. rewrite decide_False by done.
  unfold bind. by rewrite get_business_details_eq, Hd.
Qed.

(** The rows the loop adds come from businesses whose name is not in
    [previous_stores] and whose details qualify; every call it makes is a
    details call for one of the businesses. *)
Lemma filter_loop_rows (bs : list business) :
  forall results t res t',
    filter_loop E api_key prev n bs results t = (Ok res, t') ->
    exists new calls,
      res = results ++ new /\ t' = t ++ calls /\
      Forall (fun r => exists b d, b ∈ bs /\ (name b ∉ prev) /\
                                   qualifies d = true /\ r = make_row b d)
             new /\
      Forall (fun ev => exists b d, b ∈ bs /\ (name b ∉ prev) /\
                          ev = DetailsCall (place_id b) api_key (Reply d))
             calls /\
      (length calls <= length bs)%nat.
Proof.
  induction bs as [|b bs IH]; intros results t res t' Hrun.
  - injection Hrun as <- <-. exists [], []. rewrite !app_nil_r.
    repeat split; auto.
  - destruct (decide (name b ∈ prev)) as [Hb|Hb].
    + rewrite filter_loop_skip in Hrun by done.
      destruct (IH _ _ _ _ Hrun) as (new & calls & -> & -> & Hn & Hc & Hl).
      exists new, calls. repeat split; auto.
      * eapply Forall_impl; [exact Hn|]. intros r (b' & d & ? & ? & ? & ?).
        exists b', d. repeat split; auto. by right.
      * eapply Forall_impl; [exact Hc|]. intros r (b' & d & ? & ? & ?).
        exists b', d. repeat split; auto. by right.
      * simpl. lia.
    + destruct (details_api E t (place_id b) api_key) as [d|e] eqn:Hd.
      2:{ rewrite (filter_loop_fails _ _ _ _ e) in Hrun by done. done. }
      rewrite (filter_loop_lookup _ _ _ _ d) in Hrun by done.
      cbv zeta in Hrun.
      set (emitted := if qualifies d then [make_row b d] else []).
      assert ((if qualifies d then results ++ [make_row b d] else results)
              = results ++ emitted) as Hres.
      { unfold emitted. destruct (qualifies d); [done|by rewrite app_nil_r]. }
      rewrite Hres in Hrun.
      assert (Forall (fun r => exists b' d', b' ∈ b :: bs /\ (name b' ∉ prev) /\
                                 qualifies d' = true /\ r = make_row b' d')
                     emitted) as Hem.
      { unfold emitted. destruct (qualifies d) eqn:Hq; [|constructor].
        constructor; [|constructor]. exists b, d. repeat split; auto. left. }
      assert (exists b' d', b' ∈ b :: bs /\ (name b' ∉ prev) /\
                DetailsCall (place_id b) api_key (Reply d)
                = DetailsCall (place_id b') api_key (Reply d')) as Hev.
      { exists b, d. repeat split; auto. left. }
      destruct (Z.of_nat (length (results ++ emitted)) >=? n).
      * injection Hrun as <- <-.
        exists emitted, [DetailsCall (place_id b) api_key (Reply d)].
        repeat split; auto. simpl. lia.
      * destruct (IH _ _ _ _ Hrun)
          as (new & calls & -> & -> & Hn & Hc & Hl).
        exists (emitted ++ new),
               (DetailsCall (place_id b) api_key (Reply d) :: calls).
        rewrite <- !app_assoc. repeat split; auto.
        -- apply Forall_app. split; [done|].
           eapply Forall_impl; [exact Hn|].
           intros r (b' & d' & ? & ? & ? & ?).
           exists b', d'. repeat split; auto. by right.
        -- constructor; [done|]. eapply Forall_impl; [exact Hc|].
           intros r (b' & d' & ? & ? & ?).
           exists b', d'. repeat split; auto. by right.
        -- simpl. lia.
Qed.

(** Below the target on entry, at most the target on return. *)
Lemma filter_loop_bound (bs : list business) :
  forall results t res t',
    Z.of_nat (length results) < n ->
    filter_loop E api_key prev n bs results t = (Ok res, t') ->
    Z.of_nat (length res) <= n.
Proof.
  induction bs as [|b bs IH]; intros results t res t' Hlt Hrun.
  - injection Hrun as <- <-. lia.
  - destruct (decide (name b ∈ prev)) as [Hb|Hb].
    + rewrite filter_loop_skip in Hrun by done. eauto.
    + destruct (details_api E t (place_id b) api_key) as [d|e] eqn:Hd.
      2:{ rewrite (filter_loop_fails _ _ _ _ e) in Hrun by done. done. }
      rewrite (filter_loop_lookup _ _ _ _ d) in Hrun by done.
      cbv zeta in Hrun.
      set (results' := if qualifies d then results ++ [make_row b d]
                       else results) in *.
      assert (Z.of_nat (length results') <= n) as Hle.
      { unfold results'. destruct (qualifies d);
          rewrite ?length_app; simpl; lia. }
      destruct (Z.geb_spec (Z.of_nat (length results')) n) as [Hge|Hlt'].
      * injection Hrun as <- <-. done.
      * eapply IH; [|exact Hrun]. lia.
Qed.

(** Once the target is reached the loop is over: what follows in the list
    is neither looked up nor added. *)
Lemma filter_loop_stops (pre post : list business) :
  forall results t res t',
    Z.of_nat (length results) < n ->
    filter_loop E api_key prev n pre results t = (Ok res, t') ->
    n <= Z.of_nat (length res) ->
    filter_loop E api_key prev n (pre ++ post) results t = (Ok res, t').
Proof.
  induction pre as [|b pre IH]; intros results t res t' Hlt Hrun Hge.
  - injection Hrun as <- <-. lia.
  - rewrite <- app_comm_cons.
    destruct (decide (name b ∈ prev)) as [Hb|Hb].
    + rewrite filter_loop_skip in Hrun by done.
      rewrite filter_loop_skip by done. eauto.
    + destruct (details_api E t (place_id b) api_key) as [d|e] eqn:Hd.
      2:{ rewrite (filter_loop_fails _ _ _ _ e) in Hrun by done. done. }
      rewrite (filter_loop_lookup _ _ _ _ d) in Hrun by done.
      rewrite (filter_loop_lookup _ _ _ _ d) by done.
      cbv zeta in Hrun |- *.
      destruct (Z.geb_spec
                  (Z.of_nat (length (if qualifies d
                                     then results ++ [make_row b d]
                                     else results))) n) as [Hge'|Hlt'].
      * done.
      * eapply IH; [lia|exact Hrun|done].
Qed.

(** Below the target after a prefix, the loop goes on with what follows. *)
Lemma filter_loop_continues (pre post : list business) :
  forall results t res t',
    filter_loop E api_key prev n pre results t = (Ok res, t') ->
    Z.of_nat (length res) < n ->
    filter_loop E api_key prev n (pre ++ post) results t
    = filter_loop E api_key prev n post res t'.
Proof.
  induction pre as [|b pre IH]; intros results t res t' Hrun Hlt.
  - by injection Hrun as <- <-.
  - rewrite <- app_comm_cons.
    destruct (decide (name b ∈ prev)) as [Hb|Hb].
    + rewrite filter_loop_skip in Hrun by done.
      rewrite filter_loop_skip by done. eauto.
    + destruct (details_api E t (place_id b) api_key) as [d|e] eqn:Hd.
      2:{ rewrite (filter_loop_fails _ _ _ _ e) in Hrun by done. done. }
      rewrite (filter_loop_lookup _ _ _ _ d) in Hrun by done.
      rewrite (filter_loop_lookup _ _ _ _ d) by done.
      cbv zeta in Hrun |- *.
      destruct (Z.geb_spec
                  (Z.of_nat (length (if qualifies d
                                     then results ++ [make_row b d]
                                     else results))) n) as [Hge'|Hlt'].
      * injection Hrun as <- <-. lia.
      * eauto.
Qed.

(** When the target is reached, it is reached at one business: its row is
    the last one, and the run is the run on the list cut after it. *)
Lemma filter_loop_stop_point (bs : list business) :
  forall results t res t',
    Z.of_nat (length results) < n ->
    filter_loop E api_key prev n bs results t = (Ok res, t') ->
    n <= Z.of_nat (length res) ->
    exists pre b post d res0,
      bs = pre ++ b :: post /\ (name b ∉ prev) /\ qualifies d = true /\
      res = res0 ++ [make_row b d] /\
      filter_loop E api_key prev n (pre ++ [b]) results t = (Ok res, t').
Proof.
  induction bs as [|b0 bs IH]; intros results t res t' Hlt Hrun Hge.
  - injection Hrun as <- <-. lia.
  - destruct (decide (name b0 ∈ prev)) as [Hb|Hb].
    + rewrite filter_loop_skip in Hrun by done.
      destruct (IH _ _ _ _ Hlt Hrun Hge)
        as (pre & b & post & d & res0 & -> & Hbn & Hq & -> & Hcut).
      exists (b0 :: pre), b, post, d, res0. repeat split; auto.
      rewrite <- app_comm_cons. by rewrite filter_loop_skip.
    + destruct (details_api E t (place_id b0) api_key) as [d0|e] eqn:Hd.
      2:{ rewrite (filter_loop_fails _ _ _ _ e) in Hrun by done. done. }
      rewrite (filter_loop_lookup _ _ _ _ d0) in Hrun by done.
      cbv zeta in Hrun.
      destruct (Z.geb_spec
                  (Z.of_nat (length (if qualifies d0
                                     then results ++ [make_row b0 d0]
                                     else results))) n) as [Hge'|Hlt'].
      * injection Hrun as <- <-.
        destruct (qualifies d0) eqn:Hq; [|lia].
        exists [], b0, bs, d0, results. repeat split; auto.
        rewrite app_nil_l, (filter_loop_lookup _ _ _ _ d0) by done.
        cbv zeta. rewrite Hq.
        by destruct (Z.geb_spec
                       (Z.of_nat (length (results ++ [make_row b0 d0]))) n);
          try lia.
      * destruct (IH _ _ _ _ Hlt' Hrun Hge)
          as (pre & b & post & d & res0 & -> & Hbn & Hq & -> & Hcut).
        exists (b0 :: pre), b, post, d, res0. repeat split; auto.
        rewrite <- app_comm_cons, (filter_loop_lookup _ _ _ _ d0) by done.
        cbv zeta.
        by destruct (Z.geb_spec
                       (Z.of_nat (length (if qualifies d0
                                          then results ++ [make_row b0 d0]
                                          else results))) n); try lia.
Qed.

(** Businesses that are all passed over change nothing. *)
Lemma filter_loop_all_skipped (pre post : list business) results :
  Forall (fun b => name b ∈ prev) pre ->
  filter_loop E api_key prev n (pre ++ post) results
  = filter_loop E api_key prev n post results.
Proof.
  induction 1 as [|b pre Hb _ IH]; [done|].
  rewrite <- app_comm_cons, filter_loop_skip by done. exact IH.
Qed.

(** The loop returns unless a details call fails. *)
Lemma filter_loop_returns (bs : list business) :
  (forall t id, exists d, details_api E t id api_key = Reply d) ->
  forall results t, exists res t',
    filter_loop E api_key prev n bs results t = (Ok res, t').
Proof.
  intros Hapi. induction bs as [|b bs IH]; intros results t.
  - by exists results, t.
  - destruct (decide (name b ∈ prev)) as [Hb|Hb].
    + rewrite filter_loop_skip by done. apply IH.
    + destruct (Hapi t (place_id b)) as [d Hd].
      rewrite (filter_loop_lookup _ _ _ _ d) by done. cbv zeta.
      destruct (Z.of_nat (length _) >=? n); eauto.
Qed.

End FilterFacts.

Section Qualifies.

(** The truth values of Python, in words. *)
Lemma truthy_non_empty (o : option string) :
  PyStr.truthy o = true <-> non_empty o.
Proof.
  unfold non_empty. destruct o as [[|c s]|]; simpl; split.
  - done.
  - by intros (s & [= <-] & Hs).
  - intros _. by eexists.
  - done.
  - done.
  - by intros (s & [=] & _).
Qed.

Lemma truthy_empty_or_absent (o : option string) :
  PyStr.truthy o = false <-> empty_or_absent o.
Proof.
  unfold empty_or_absent. destruct o as [[|c s]|]; simpl; split; auto.
  - discriminate.
  - intros [H|H]; discriminate.
Qed.

Lemma qualifies_spec (d : details) :
  qualifies d = true <-> non_empty (phone d) /\ empty_or_absent (website d).
Proof.
  unfold qualifies.
  rewrite andb_true_iff, negb_true_iff, truthy_non_empty,
    truthy_empty_or_absent. done.
Qed.

End Qualifies.

(** C2.  A business that the filter reaches and does not pass over is added
    to the result exactly when its details have a phone that is not empty
    and a website that is empty or absent: with the businesses [pre] before
    it processed (target not reached, or all passed over), the rows returned
    are the rows so far, then the row of [b] if it qualifies and nothing if
    it does not, then rows of businesses that come after [b]. *)
Theorem filter_emits_iff_qualifies
        (E : Env) (api_key : option string) (prev : gset (option string))
        (n : Z) (pre : list business) (b : business) (post : list business)
        (t0 t t' : trace) (results res : list row) (d : details) :
  filter_businesses E pre api_key prev n t0 = (Ok results, t) ->
  Z.of_nat (length results) < n \/ Forall (fun b' => name b' ∈ prev) pre ->
  name b ∉ prev ->
  details_api E t (place_id b) api_key = Reply d ->
  filter_businesses E (pre ++ b :: post) api_key prev n t0 = (Ok res, t') ->
  exists emitted later,
    res = results ++ emitted ++ later /\
    (non_empty (phone d) /\ empty_or_absent (website d) ->
     emitted = [make_row b d]) /\
    (~ (non_empty (phone d) /\ empty_or_absent (website d)) ->
     emitted = []) /\
    Forall (fun r => exists b' d', b' ∈ post /\ r = make_row b' d') later.
Proof.
  unfold filter_businesses. intros Hpre Hreach Hb Hd Hrun.
  assert (filter_loop E api_key prev n (pre ++ b :: post) [] t0
          = filter_loop E api_key prev n (b :: post) results t) as Hgo.
  { destruct Hreach as [Hlt|Hskip].
    - by apply filter_loop_continues.
    - rewrite <- (app_nil_r pre), filter_loop_all_skipped in Hpre by done.
      injection Hpre as <- <-. by rewrite filter_loop_all_skipped. }
  rewrite Hgo, (filter_loop_lookup _ _ _ _ _ _ _ _ d) in Hrun by done.
  cbv zeta in Hrun.
  set (emitted := if qualifies d then [make_row b d] else []).
  assert ((if qualifies d then results ++ [make_row b d] else results)
          = results ++ emitted) as Hres.
  { unfold emitted. destruct (qualifies d); [done|by rewrite app_nil_r]. }
  rewrite Hres in Hrun.
  assert (exists later,
             res = results ++ emitted ++ later /\
             Forall (fun r => exists b' d', b' ∈ post /\ r = make_row b' d')
                    later) as (later & -> & Hlater).
  { destruct (Z.of_nat (length (results ++ emitted)) >=? n).
    - injection Hrun as <- <-. exists []. by rewrite app_nil_r.
    - destruct (filter_loop_rows _ _ _ _ _ _ _ _ _ Hrun)
        as (new & calls & -> & _ & Hnew & _).
      exists new. rewrite <- app_assoc. split; [done|].
      eapply Forall_impl; [exact Hnew|].
      intros r (b' & d' & Hin & _ & _ & ->). eauto. }
  exists emitted, later. repeat split; auto.
  - intros Hq%qualifies_spec. unfold emitted. by rewrite Hq.
  - intros Hq. unfold emitted.
    destruct (qualifies d) eqn:Hqd; [|done].
    by apply qualifies_spec in Hqd.
Qed.

(** The spec's two cases of the test. *)
Example qualifies_phone_without_website :
  qualifies {| phone := Some "555-0100"%string; website := None |} = true.
Proof. reflexivity. Qed.

Example never_qualifies_without_phone (w : option string) :
  qualifies {| phone := None; website := w |} = false.
Proof. reflexivity. Qed.

(** [Alpha] has a website and gives no row; [Beta], reached next with the
    target of 2 not met, has a phone and no website and gives the first
    row; the row of [Gamma] follows. *)
Lemma filter_emits_iff_qualifies_witness :
  exists emitted later,
    [make_row (Sample.business_of Sample.Beta) Sample.phone_only;
     make_row (Sample.business_of Sample.Gamma) Sample.phone_only]
    = [] ++ emitted ++ later /\
    (non_empty (phone Sample.phone_only) /\
     empty_or_absent (website Sample.phone_only) ->
     emitted = [make_row (Sample.business_of Sample.Beta) Sample.phone_only]) /\
    (~ (non_empty (phone Sample.phone_only) /\
        empty_or_absent (website Sample.phone_only)) ->
     emitted = []) /\
    Forall (fun r => exists b' d',
                b' ∈ [Sample.business_of Sample.Gamma] /\ r = make_row b' d')
           later.
Proof.
  apply (filter_emits_iff_qualifies
           Sample.env (Some "key"%string) {[Some "Old"%string]} 2
           [Sample.business_of Sample.Alpha]
           (Sample.business_of Sample.Beta)
           [Sample.business_of Sample.Gamma]
           []
           [DetailsCall (Some "idA"%string) (Some "key"%string)
                        (Reply Sample.with_website)]
           [DetailsCall (Some "idA"%string) (Some "key"%string)
                        (Reply Sample.with_website);
            DetailsCall (Some "idB"%string) (Some "key"%string)
                        (Reply Sample.phone_only);
            DetailsCall (Some "idC"%string) (Some "key"%string)
                        (Reply Sample.phone_only)]).
  - vm_compute. reflexivity.
  - left. simpl. lia.
  - vm_compute. intros H. inversion H.
  - reflexivity.
  - vm_compute. reflexivity.
Defined.

Section ExpandFacts.
Variable E : Env.
Variables (fuel : nat) (args : arguments) (lat lng : float).

(** ** The loop of [main] *)

(** The rows of the filter carry names outside [previous_stores]. *)
Lemma filter_businesses_fresh bs api_key prev k t res t' :
  filter_businesses E bs api_key prev k t = (Ok res, t') ->
  Forall (fun r => Name r ∉ prev) res.
Proof.
  intros Hrun.
  destruct (filter_loop_rows _ _ _ _ _ _ _ _ _ Hrun)
    as (new & calls & -> & _ & Hnew & _).
  simpl. eapply Forall_impl; [exact Hnew|].
  by intros r (b & d & _ & Hb & _ & ->).
Qed.

(** The filter returns at most the target, for a target of at least one. *)
Lemma filter_businesses_bound bs api_key prev k t res t' :
  1 <= k ->
  filter_businesses E bs api_key prev k t = (Ok res, t') ->
  Z.of_nat (length res) <= k.
Proof.
  intros Hk Hrun. eapply filter_loop_bound; [|exact Hrun]. simpl. lia.
Qed.

(** What one turn of the loop does when it returns. *)
Lemma expand_step_inv (st st' : search_state) (t t' : trace) :
  expand_step E fuel args lat lng st t = (Ok st', t') ->
  exists businesses t1 filtered,
    get_businesses_grid_search E fuel lat lng (max_radius st + 500)
                               (API_KEY args) t = (Ok businesses, t1) /\
    filter_businesses E businesses (API_KEY args) (previous_stores st)
      (n args - Z.of_nat (length (found_businesses st))) t1
    = (Ok filtered, t') /\
    st' = {| max_radius := max_radius st + 500;
             found_businesses := found_businesses st ++ filtered;
             previous_stores :=
               previous_stores st ∪ list_to_set (Name <$> filtered) |}.
Proof.
  unfold expand_step, bind, ret. intros Hrun.
  destruct (get_businesses_grid_search _ _ _ _ _ _ t)
    as [[businesses| |] t1]; try done.
  destruct (filter_businesses _ _ _ _ _ t1)
    as [[filtered| |] t2] eqn:Hf; try done.
  injection Hrun as <- <-. by exists businesses, t1, filtered.
Qed.

(** The loop returns at once when the target is met. *)
Lemma expand_loop_exit (turns : nat) (st : search_state) (t : trace) :
  n args <= Z.of_nat (length (found_businesses st)) ->
  expand_loop E turns fuel args lat lng st t = (Ok st, t).
Proof.
  intros Hge. destruct turns; simpl;
    by destruct (Z.ltb_spec (Z.of_nat (length (found_businesses st)))
                            (n args)); try lia.
Qed.

(** Below the target the loop takes a turn, *)
Lemma expand_loop_turn (turns : nat) (st : search_state) :
  Z.of_nat (length (found_businesses st)) < n args ->
  expand_loop E (S turns) fuel args lat lng st
  = bind (expand_step E fuel args lat lng st)
         (expand_loop E turns fuel args lat lng).
Proof.
  intros Hlt. simpl.
  by destruct (Z.ltb_spec (Z.of_nat (length (found_businesses st)))
                          (n args)); try lia.
Qed.

(** or runs out of turns. *)
Lemma expand_loop_no_turn (st : search_state) (t : trace) :
  Z.of_nat (length (found_businesses st)) < n args ->
  expand_loop E 0 fuel args lat lng st t = (OutOfFuel, t).
Proof.
  intros Hlt. simpl.
  by destruct (Z.ltb_spec (Z.of_nat (length (found_businesses st)))
                          (n args)); try lia.
Qed.

(** One turn keeps the count within the target. *)
Lemma expand_step_bound (st st' : search_state) (t t' : trace) :
  Z.of_nat (length (found_businesses st)) < n args ->
  expand_step E fuel args lat lng st t = (Ok st', t') ->
  (length (found_businesses st) <= length (found_businesses st'))%nat /\
  Z.of_nat (length (found_businesses st')) <= n args.
Proof.
  intros Hlt (businesses & t1 & filtered & _ & Hf & ->)%expand_step_inv.
  apply filter_businesses_bound in Hf; [|lia].
  simpl. rewrite length_app. lia.
Qed.

End ExpandFacts.

(** C3.  With a target [k] of at least one, the filter returns at most [k]
    rows.  A run that returns [k] rows reached the target at one business
    [b]: the last row is the row of [b], and the run is the run on the list
    cut after [b].  Once a prefix of the businesses has produced [k] rows,
    whatever follows changes neither the rows returned nor the calls made,
    and every call is a details call for a business of that prefix.  The
    filter returns unless the details service fails. *)
Theorem filter_businesses_early_exit
        (E : Env) (api_key : option string) (prev : gset (option string))
        (k : Z) (t : trace) :
  1 <= k ->
  (forall bs res t',
      filter_businesses E bs api_key prev k t = (Ok res, t') ->
      Z.of_nat (length res) <= k) /\
  (forall bs res t',
      filter_businesses E bs api_key prev k t = (Ok res, t') ->
      Z.of_nat (length res) = k ->
      exists pre b post d res0,
        bs = pre ++ b :: post /\ res = res0 ++ [make_row b d] /\
        filter_businesses E (pre ++ [b]) api_key prev k t = (Ok res, t')) /\
  (forall pre post res t',
      filter_businesses E pre api_key prev k t = (Ok res, t') ->
      Z.of_nat (length res) = k ->
      filter_businesses E (pre ++ post) api_key prev k t = (Ok res, t') /\
      exists calls,
        t' = t ++ calls /\ (length calls <= length pre)%nat /\
        Forall (fun ev => exists b d,
                    b ∈ pre /\
                    ev = DetailsCall (place_id b) api_key (Reply d)) calls) /\
  ((forall t0 id, exists d, details_api E t0 id api_key = Reply d) ->
   forall bs, exists res t',
       filter_businesses E bs api_key prev k t = (Ok res, t')).
Proof.
  intros Hk. split; [|split; [|split]].
  - intros bs res t' Hrun. by eapply filter_businesses_bound.
  - intros bs res t' Hrun Hlen.
    destruct (filter_loop_stop_point E api_key prev k bs [] t res t')
      as (pre & b & post & d & res0 & -> & _ & _ & -> & Hcut);
      [simpl; lia|done|lia|].
    by exists pre, b, post, d, res0.
  - intros pre post res t' Hrun Hlen. split.
    + apply filter_loop_stops; [simpl; lia|done|lia].
    + destruct (filter_loop_rows _ _ _ _ _ _ _ _ _ Hrun)
        as (new & calls & _ & -> & _ & Hcalls & Hl).
      exists calls. repeat split; auto.
      eapply Forall_impl; [exact Hcalls|].
      intros ev (b & d & ? & _ & ->). eauto.
  - intros Hapi bs. by apply filter_loop_returns.
Qed.

(** Ten stores that all qualify and a target of 3: the first three give the
    three rows and the three details calls, with or without the seven
    others behind them. *)
Lemma filter_businesses_early_exit_witness :
  let key := Some "key"%string in
  let rows := (fun b => make_row b Sample.phone_only) <$> take 3 Sample.ten in
  let calls :=
    (fun b => DetailsCall (place_id b) key (Reply Sample.phone_only))
      <$> take 3 Sample.ten in
  1 <= 3 /\
  filter_businesses Sample.env (take 3 Sample.ten) key ∅ 3 [] = (Ok rows, calls) /\
  Z.of_nat (length rows) = 3 /\
  filter_businesses Sample.env (take 3 Sample.ten ++ drop 3 Sample.ten)
                    key ∅ 3 []
  = (Ok rows, calls).
Proof.
  intros key rows calls.
  assert (1 <= 3) as Hk by lia.
  assert (filter_businesses Sample.env (take 3 Sample.ten) key ∅ 3 []
          = (Ok rows, calls)) as Hrun by (vm_compute; reflexivity).
  assert (Z.of_nat (length rows) = 3) as Hlen by reflexivity.
  refine (conj Hk (conj Hrun (conj Hlen _))).
  exact (proj1 (proj1 (proj2 (proj2 (filter_businesses_early_exit
                                       Sample.env key ∅ 3 [] Hk)))
                      (take 3 Sample.ten) (drop 3 Sample.ten) rows calls
                      Hrun Hlen)).
Defined.

Section LoopInvariants.
Variable E : Env.
Variables (fuel : nat) (args : arguments) (lat lng : float).

(** A run of the loop that returns either met the target at once, or took
    a turn and went on. *)
Lemma expand_loop_inv (turns : nat) (st st' : search_state) (t t' : trace) :
  expand_loop E turns fuel args lat lng st t = (Ok st', t') ->
  (n args <= Z.of_nat (length (found_businesses st)) /\ st' = st /\ t' = t)
  \/
  (Z.of_nat (length (found_businesses st)) < n args /\
   exists turns' st1 t1,
     turns = S turns' /\
     expand_step E fuel args lat lng st t = (Ok st1, t1) /\
     expand_loop E turns' fuel args lat lng st1 t1 = (Ok st', t')).
Proof.
  intros Hrun.
  destruct (Z.lt_ge_cases (Z.of_nat (length (found_businesses st)))
                          (n args)) as [Hlt|Hge].
  - right. split; [done|]. destruct turns as [|turns].
    + by rewrite expand_loop_no_turn in Hrun.
    + rewrite expand_loop_turn in Hrun by done. unfold bind in Hrun.
      destruct (expand_step E fuel args lat lng st t)
        as [[st1| |] t1] eqn:Hstep; try done.
      by exists turns, st1, t1.
  - left. rewrite expand_loop_exit in Hrun by done.
    by injection Hrun as <- <-.
Qed.

(** The loop returns with exactly the target when it starts within it. *)
Lemma expand_loop_final (turns : nat) :
  forall st t st' t',
    Z.of_nat (length (found_businesses st)) <= n args ->
    expand_loop E turns fuel args lat lng st t = (Ok st', t') ->
    Z.of_nat (length (found_businesses st')) = n args.
Proof.
  induction turns as [|turns IH]; intros st t st' t' Hle Hrun;
    apply expand_loop_inv in Hrun
      as [(Hge & -> & ->)|(Hlt & turns' & st1 & t1 & Ht & Hstep & Hrest)];
    try lia; try done.
  injection Ht as <-.
  eapply IH; [|exact Hrest].
  by eapply expand_step_bound.
Qed.

Lemma list_to_set_names_app (xs ys : list row) (X : gset (option string)) :
  X ∪ list_to_set (Name <$> xs) ∪ list_to_set (Name <$> ys)
  = X ∪ list_to_set (Name <$> (xs ++ ys)).
Proof. rewrite fmap_app, list_to_set_app_L. by rewrite (assoc_L (∪)). Qed.

End LoopInvariants.

(** C4.  A business whose name is in the set of earlier names when the
    filter examines it gives no row: in a run of the loop of [main], the
    rows added in every turn carry names that are neither in the set the
    loop started with (the names of earlier result files) nor among the
    names of the rows added in the turns before. *)
Theorem seen_names_never_emitted
        (E : Env) (turns fuel : nat) (args : arguments) (lat lng : float)
        (st st' : search_state) (t t' : trace) :
  expand_loop E turns fuel args lat lng st t = (Ok st', t') ->
  exists passes : list (list row),
    found_businesses st' = found_businesses st ++ concat passes /\
    previous_stores st'
    = previous_stores st ∪ list_to_set (Name <$> concat passes) /\
    forall i new,
      passes !! i = Some new ->
      Forall (fun r => Name r ∉ previous_stores st
                         ∪ list_to_set (Name <$> concat (take i passes)))
             new.
Proof.
  revert st t st' t'.
  induction turns as [|turns IH]; intros st t st' t' Hrun;
    apply expand_loop_inv in Hrun
      as [(Hge & -> & ->)|(Hlt & turns' & st1 & t1 & Ht & Hstep & Hrest)];
    try done.
  1,2: exists []; simpl; rewrite app_nil_r, (right_id_L ∅ (∪));
       repeat split; auto; by intros i new Hi.
  injection Ht as <-.
  apply expand_step_inv in Hstep
    as (businesses & t0 & filtered & _ & Hf & ->).
  apply filter_businesses_fresh in Hf.
  destruct (IH _ _ _ _ Hrest) as (passes & Hfound & Hprev & Hnew).
  simpl in Hfound, Hprev, Hnew.
  exists (filtered :: passes). simpl. split; [|split].
  - by rewrite Hfound, <- app_assoc.
  - by rewrite Hprev, list_to_set_names_app.
  - intros [|i] new Hi; simpl in Hi |- *.
    + injection Hi as <-. by rewrite (right_id_L ∅ (∪)).
    + rewrite <- list_to_set_names_app. by apply Hnew.
Qed.



(** [Beta] was found by an earlier run: with a target of one store the run
    passes it over, although it qualifies, and returns [Gamma]. *)
Lemma seen_names_never_emitted_witness :
  let st := Sample.start ["Beta"%string] Sample.args_one in
  let gamma := make_row (Sample.business_of Sample.Gamma) Sample.phone_only in
  let st' := {| max_radius := 1000; found_businesses := [gamma];
                previous_stores := previous_stores st ∪ {[Name gamma]} |} in
  exists passes : list (list row),
    found_businesses st' = found_businesses st ++ concat passes /\
    previous_stores st'
    = previous_stores st ∪ list_to_set (Name <$> concat passes) /\
    forall i new,
      passes !! i = Some new ->
      Forall (fun r => Name r ∉ previous_stores st
                         ∪ list_to_set (Name <$> concat (take i passes)))
             new.
Proof.
  intros st gamma st'.
  apply (seen_names_never_emitted
           Sample.env 2 2 Sample.args_one 60 25 st st' []
           (snd (expand_loop Sample.env 2 2 Sample.args_one 60 25 st []))).
  vm_compute. reflexivity.
Defined.


Section PassFacts.
Variable E : Env.

(** ** One pass of the grid search *)

(** A part of a pass that makes no call. *)
Lemma pass_facts_nil (bs : list business) (o : outcome (list business)) :
  (forall bs', o = Ok bs' -> bs' = bs) -> pass_facts bs [] o.
Proof.
  intros Ho. split.
  - intros params e Hin. by apply elem_of_nil in Hin.
  - intros bs' ->%Ho. split; [done|].
    intros params pg p Hin. by apply elem_of_nil in Hin.
Qed.

(** A part of a pass that does not return. *)
Lemma pass_facts_not_ok (bs : list business) (calls : list event)
      (o : outcome (list business)) :
  (forall bs', o <> Ok bs') ->
  (forall params e,
      NearbyCall params (Fails e) ∈ calls ->
      o = Raise e /\
      exists earlier, calls = earlier ++ [NearbyCall params (Fails e)]) ->
  pass_facts bs calls o.
Proof. intros Ho Hf. split; [done|]. intros bs' Hbs. by destruct (Ho bs'). Qed.

(** A part that returns, followed by a second part. *)
Lemma pass_facts_seq (bs0 bs1 : list business) (c1 c2 : list event)
      (o : outcome (list business)) :
  pass_facts bs0 c1 (Ok bs1) -> pass_facts bs1 c2 o ->
  pass_facts bs0 (c1 ++ c2) o.
Proof.
  intros [Hf1 Hok1] [Hf2 Hok2].
  destruct (Hok1 bs1 eq_refl) as [Hsub1 Hitems1]. split.
  - intros params e [Hin|Hin]%elem_of_app.
    + by destruct (Hf1 _ _ Hin) as [? _].
    + destruct (Hf2 _ _ Hin) as [-> [earlier ->]]. split; [done|].
      exists (c1 ++ earlier). by rewrite app_assoc.
  - intros bs ->. destruct (Hok2 bs eq_refl) as [Hsub2 Hitems2]. split.
    + auto.
    + intros params pg p [Hin|Hin]%elem_of_app Hp.
      * destruct (Hitems1 _ _ _ Hin Hp) as (b & Hb & Hbp). eauto.
      * eauto.
Qed.

(** The businesses of one page, appended to the list. *)
Lemma page_businesses (ps : list place) :
  forall (bs : list business) o,
    for_each ps (fun place bs => obind (business_of_place place)
                                       (fun b => Ok (bs ++ [b]))) bs = o ->
    o <> OutOfFuel /\
    forall bs', o = Ok bs' ->
      (forall b, b ∈ bs -> b ∈ bs') /\
      forall p, p ∈ ps -> exists b, b ∈ bs' /\ business_of_place p = Ok b.
Proof.
  induction ps as [|p ps IH]; intros bs o <-; simpl.
  - split; [done|]. intros ? [= <-]. split; [done|].
    intros p Hp. by apply elem_of_nil in Hp.
  - destruct (business_of_place p) as [b| |] eqn:Hb; simpl.
    + destruct (IH (bs ++ [b]) _ eq_refl) as (Hfuel & Hok).
      split; [done|]. intros bs' Hbs'.
      destruct (Hok bs' Hbs') as [Hsub Hitems]. split.
      * intros b' Hb'. apply Hsub. apply elem_of_app. by left.
      * intros p' [->|Hp']%elem_of_cons; [|by apply Hitems].
        exists b. split; [|done]. apply Hsub, elem_of_app. right. left.
    + split; done.
    + unfold business_of_place in Hb. by destruct (p_types p).
Qed.

(** The pages of one grid point. *)
Lemma search_point_facts (fuel : nat) (pt : point) (radius : Z)
      (api_key : option string) :
  forall (token : option string) (bs : list business) (t : trace),
  exists calls,
    snd (search_point E fuel pt radius api_key token bs t) = t ++ calls /\
    pass_facts bs calls
               (fst (search_point E fuel pt radius api_key token bs t)).
Proof.
  induction fuel as [|fuel IH]; intros token bs t.
  - exists []. simpl. rewrite app_nil_r. split; [done|].
    by apply pass_facts_not_ok; [|intros ?? Hin; apply elem_of_nil in Hin].
  - cbn [search_point]. unfold bind, call, lift.
    set (params := {| location := pt; radius := radius; type_ := "store";
                      key := api_key;
                      pagetoken := if PyStr.truthy token then token
                                   else None |}).
    destruct (nearby_api E t params) as [data|e] eqn:Hreply.
    + destruct (for_each (results data) _ bs) as [bs'| |] eqn:Hpage.
      * destruct (page_businesses _ _ _ Hpage) as (_ & Hok).
        destruct (Hok bs' eq_refl) as [Hsub Hitems].
        assert (pass_facts bs [NearbyCall params (Reply data)] (Ok bs'))
          as Hfirst.
        { split.
          - intros params' e' Hin. apply list_elem_of_singleton in Hin.
            discriminate.
          - intros bs'' [= <-]. split; [done|].
            intros params' pg p Hin Hp.
            apply list_elem_of_singleton in Hin. injection Hin as -> ->.
            by apply Hitems. }
        destruct (PyStr.truthy (next_page_token data)).
        -- destruct (IH (next_page_token data) bs'
                        (t ++ [NearbyCall params (Reply data)]))
             as (calls & Htr & Hfacts).
           exists (NearbyCall params (Reply data) :: calls).
           rewrite Htr, <- app_assoc. split; [done|].
           by apply (pass_facts_seq bs bs' [_] calls).
        -- exists [NearbyCall params (Reply data)]. by split.
      * exists [NearbyCall params (Reply data)]. split; [done|].
        apply pass_facts_not_ok; [done|].
        intros params' e' Hin. apply list_elem_of_singleton in Hin.
        discriminate.
      * by destruct (page_businesses _ _ _ Hpage) as (? & _).
    + exists [NearbyCall params (Fails e)]. split; [done|].
      apply pass_facts_not_ok; [done|].
      intros params' e' Hin. apply list_elem_of_singleton in Hin.
      injection Hin as -> ->. split; [done|]. by exists [].
Qed.

(** The loop over the grid points. *)
Lemma collect_businesses_facts (fuel : nat) (radius : Z)
      (api_key : option string) (grid_points : list point) :
  forall (bs : list business) (t : trace),
  exists calls,
    snd (for_eachM grid_points
           (fun pt businesses =>
              search_point E fuel pt radius api_key None businesses) bs t)
    = t ++ calls /\
    pass_facts bs calls
      (fst (for_eachM grid_points
              (fun pt businesses =>
                 search_point E fuel pt radius api_key None businesses)
              bs t)).
Proof.
  induction grid_points as [|pt pts IH]; intros bs t.
  - exists []. simpl. rewrite app_nil_r. split; [done|].
    apply pass_facts_nil. by intros bs' [= <-].
  - cbn [for_eachM]. unfold bind.
    destruct (search_point_facts fuel pt radius api_key None bs t)
      as (c1 & Htr1 & Hf1).
    destruct (search_point E fuel pt radius api_key None bs t)
      as [[bs1|e|] t1]; simpl in Htr1, Hf1; subst t1.
    + destruct (IH bs1 (t ++ c1)) as (c2 & Htr2 & Hf2).
      exists (c1 ++ c2). rewrite Htr2, app_assoc. split; [done|].
      by apply (pass_facts_seq bs bs1).
    + by exists c1.
    + by exists c1.
Qed.

(** The whole pass: its trace grows, a failed nearby call is its last call
    and its outcome, and what it returns is the merge of one business per
    item received. *)
Lemma grid_search_facts (fuel : nat) (center_lat center_lng : float)
      (radius : Z) (api_key : option string) (t : trace) :
  exists calls,
    snd (get_businesses_grid_search E fuel center_lat center_lng radius
                                    api_key t) = t ++ calls /\
    (forall params e,
        NearbyCall params (Fails e) ∈ calls ->
        fst (get_businesses_grid_search E fuel center_lat center_lng radius
                                        api_key t) = Raise e /\
        exists earlier, calls = earlier ++ [NearbyCall params (Fails e)]) /\
    (forall merged,
        fst (get_businesses_grid_search E fuel center_lat center_lng radius
                                        api_key t) = Ok merged ->
        exists bs,
          merged = unique_businesses bs /\
          forall params pg p,
            NearbyCall params (Reply pg) ∈ calls -> p ∈ results pg ->
            exists b, b ∈ bs /\ business_of_place p = Ok b).
Proof.
  unfold get_businesses_grid_search, collect_businesses, bind, lift, ret.
  destruct (get_grid_points (math_cos E) center_lat center_lng radius 10)
    as [grid_points|e|].
  - destruct (collect_businesses_facts fuel radius api_key grid_points [] t)
      as (calls & Htr & Hf & Hok).
    destruct (for_eachM grid_points _ [] t) as [[bs|e|] t1];
      simpl in Htr, Hf, Hok; subst t1; exists calls; simpl.
    + split; [done|]. split.
      * intros params e Hin. by destruct (Hf _ _ Hin) as [? _].
      * intros merged [= <-]. exists bs. split; [done|].
        by destruct (Hok bs eq_refl).
    + split; [done|]. by split.
    + split; [done|]. by split.
  - exists []. simpl. rewrite app_nil_r. split; [done|].
    split; [|done]. intros params e' Hin. by apply elem_of_nil in Hin.
  - exists []. simpl. rewrite app_nil_r. split; [done|].
    split; [|done]. intros params e' Hin. by apply elem_of_nil in Hin.
Qed.

End PassFacts.

(** C9, as the code has it.  A nearby call that fails during a pass ends
    the pass: the grid search raises the exception of that call, which is
    the last call it made, and returns no business. *)
Theorem grid_search_failure_aborts
        (E : Env) (fuel : nat) (center_lat center_lng : float) (radius : Z)
        (api_key : option string) (t calls : trace)
        (o : outcome (list business)) (params : nearby_params) (e : exn) :
  get_businesses_grid_search E fuel center_lat center_lng radius api_key t
  = (o, t ++ calls) ->
  NearbyCall params (Fails e) ∈ calls ->
  o = Raise e /\
  exists earlier, calls = earlier ++ [NearbyCall params (Fails e)].
Proof.
  intros Hrun Hin.
  destruct (grid_search_facts E fuel center_lat center_lng radius api_key t)
    as (calls' & Htr & Hfail & _).
  rewrite Hrun in Htr, Hfail. simpl in Htr, Hfail.
  apply app_inv_head in Htr as <-. by apply Hfail.
Qed.

(** The nearby search is down at the first of the 121 points of a pass of
    1000 metres: the pass raises after that one call. *)
Lemma grid_search_failure_aborts_witness :
  let run :=
    get_businesses_grid_search Sample.env_down_once 2 60 25 1000
                               (Some "key"%string) [] in
  let params :=
    {| location := offset_point Sample.cos_table 60 25 200 (-5) (-5);
       radius := 1000; type_ := "store"; key := Some "key"%string;
       pagetoken := None |} in
  fst run = Raise ConnectionError /\
  exists earlier,
    snd run = earlier ++ [NearbyCall params (Fails ConnectionError)].
Proof.
  intros run params.
  apply (grid_search_failure_aborts
           Sample.env_down_once 2 60 25 1000 (Some "key"%string) []
           (snd run) (fst run) params ConnectionError).
  - reflexivity.
  - vm_compute. left.
Defined.

(** Against C9: with the nearby search down at the first grid point only,
    the pass does not return the businesses of the other points; it raises
    after that one call. *)
Lemma grid_search_failure_counterexample :
  fst (get_businesses_grid_search Sample.env_down_once 2 60 25 1000
                                  (Some "key"%string) [])
  = Raise ConnectionError /\
  length (snd (get_businesses_grid_search Sample.env_down_once 2 60 25 1000
                                          (Some "key"%string) [])) = 1%nat /\
  ~ exists merged,
      fst (get_businesses_grid_search Sample.env_down_once 2 60 25 1000
                                      (Some "key"%string) [])
      = Ok merged.
Proof.
  split; [by vm_compute|]. split; [by vm_compute|].
  intros [merged Hm]. vm_compute in Hm. discriminate.
Qed.

(** Against C8: a result item without [place_id] is not dropped, it is the
    business the grid search returns. *)
Lemma grid_search_keeps_item_without_id_counterexample :
  p_place_id Sample.Nameless = None /\
  fst (get_businesses_grid_search Sample.env_nameless 1 60 25 500
                                  (Some "key"%string) [])
  = Ok [{| name := Some "Kiosk"%string; place_id := None;
           address := Some "2 Main St"%string; types := "store" |}].
Proof. split; [reflexivity|by vm_compute]. Qed.

Section MainFacts.
Variable E : Env.

(** ** [main] without a location *)

(** The geocoding call answers and is logged. *)
Lemma get_lat_lng_eq (zip : string) (api_key : option string) (t : trace) :
  get_lat_lng E zip api_key t
  = (match geocode_api E t zip api_key with
     | Reply ((lat, lng) :: _) => Ok (Some lat, Some lng)
     | Reply [] => Ok (None, None)
     | Fails e => Raise e
     end,
     t ++ [GeocodeCall zip api_key (geocode_api E t zip api_key)]).
Proof.
  unfold get_lat_lng, bind, call, ret.
  by destruct (geocode_api E t zip api_key) as [[|[lat lng] rest]|e].
Qed.

(** A coordinate equal to zero is not a location for [if lat and lng]. *)
Lemma located_zero (lat lng : float) :
  PrimFloat.eqb lat 0 = true \/ PrimFloat.eqb lng 0 = true ->
  located (Some lat) (Some lng) = None.
Proof.
  unfold located, PyFloat.truthy. intros [-> | ->]; [done|].
  by rewrite andb_false_r.
Qed.

(** Without a location [main] stops after the geocoding call. *)
Lemma main_not_located (turns fuel : nat) (args : arguments) (t : trace)
      (lat lng : option float) (r : reply (list point)) :
  geocode_api E t (zip_code args) (API_KEY args) = r ->
  match r with
  | Reply ((la, ln) :: _) => lat = Some la /\ lng = Some ln
  | Reply [] => lat = None /\ lng = None
  | Fails _ => False
  end ->
  located lat lng = None ->
  main E turns fuel args t
  = (Ok tt, t ++ [GeocodeCall (zip_code args) (API_KEY args) r]).
Proof.
  intros Hr Hll Hloc. unfold main, bind. rewrite get_lat_lng_eq, Hr.
  destruct r as [[|[la ln] rest]|e]; [| |done]; destruct Hll as [-> ->];
    cbn [fst snd]; by rewrite Hloc.
Qed.

End MainFacts.

(** C10.  When the geocoder answers with a latitude or a longitude equal to
    zero, [main] does what it does when the geocoder finds nothing: it
    returns after the geocoding call, which is the only call of the run; no
    earlier result is read, nothing is searched and no file is written. *)
Theorem main_zero_coordinate_as_not_found
        (E : Env) (turns fuel : nat) (args : arguments) (t : trace)
        (lat lng : float) (rest : list point) :
  geocode_api E t (zip_code args) (API_KEY args) = Reply ((lat, lng) :: rest) ->
  PrimFloat.eqb lat 0 = true \/ PrimFloat.eqb lng 0 = true ->
  main E turns fuel args t
  = (Ok tt, t ++ [GeocodeCall (zip_code args) (API_KEY args)
                              (Reply ((lat, lng) :: rest))]) /\
  forall E' : Env,
    geocode_api E' t (zip_code args) (API_KEY args) = Reply [] ->
    main E' turns fuel args t
    = (Ok tt, t ++ [GeocodeCall (zip_code args) (API_KEY args) (Reply [])]).
Proof.
  intros Hgeo Hzero. split.
  - apply (main_not_located E turns fuel args t (Some lat) (Some lng));
      [done|done|by apply located_zero].
  - intros E' Hnone.
    by apply (main_not_located E' turns fuel args t None None).
Qed.

(** A ZIP code that is geocoded onto the equator: the run ends after the
    geocoding call. *)
Lemma main_zero_coordinate_as_not_found_witness :
  main Sample.env_equator 2 2 Sample.args []
  = (Ok tt, [GeocodeCall "98033" (Some "key"%string)
                         (Reply [(0%float, 25%float)])]).
Proof.
  apply (main_zero_coordinate_as_not_found
           Sample.env_equator 2 2 Sample.args [] 0 25 []).
  - reflexivity.
  - left. reflexivity.
Defined.

(** With both coordinates away from zero the same run goes on: it reads the
    earlier results, searches, and writes the file. *)
Example main_located_searches :
  fst (main Sample.env 2 2 Sample.args []) = Ok tt /\
  last (snd (main Sample.env 2 2 Sample.args []))
  = Some (ToCsvCall "98033.2.1000.csv"
            [make_row (Sample.business_of Sample.Beta) Sample.phone_only;
             make_row (Sample.business_of Sample.Gamma) Sample.phone_only]).
Proof. split; by vm_compute. Qed.

Section TypesFacts.

(** ** The text stored under [Types] *)

(** Equations of the concatenation of texts. *)
Lemma append_cons (c : ascii) (s1 s2 : string) :
  String c s1 +:+ s2 = String c (s1 +:+ s2).
Proof. reflexivity. Qed.

Lemma append_empty_r (s : string) : s +:+ "" = s.
Proof.
  induction s as [|c s IH]; [done|]. by rewrite append_cons, IH.
Qed.

Lemma append_snoc (cur : string) (c : ascii) (s : string) :
  (cur +:+ String c "") +:+ s = cur +:+ String c s.
Proof.
  induction cur as [|c' cur IH]; [done|]. by rewrite !append_cons, IH.
Qed.

(** Splitting runs through a piece without comma. *)
Lemma split_go_lacks (s : string) :
  PyStr.lacks "," s = true ->
  forall cur rest,
    PyStr.split_go "," cur (s +:+ rest) = PyStr.split_go "," (cur +:+ s) rest.
Proof.
  induction s as [|c s IH]; intros Hs cur rest.
  - by rewrite append_empty_r.
  - cbn [PyStr.lacks] in Hs.
    apply andb_true_iff in Hs as [Hc Hs]. apply negb_true_iff in Hc.
    rewrite append_cons. cbn [PyStr.split_go].
    rewrite Hc, IH by done. by rewrite append_snoc.
Qed.

(** Joined with a comma and a space and split at the comma, every label
    but the first comes back with the space in front. *)
Lemma split_join (ls : list string) :
  forall (l cur : string),
    Forall (fun x => PyStr.lacks "," x = true) (l :: ls) ->
    PyStr.split_go "," cur (PyStr.join ", " (l :: ls))
    = (cur +:+ l) :: ((fun x => " " +:+ x) <$> ls).
Proof.
  induction ls as [|l2 ls IH]; intros l cur Hall;
    apply Forall_cons in Hall as [Hl Hall].
  - cbn [PyStr.join]. rewrite <- (append_empty_r l) at 1.
    by rewrite split_go_lacks.
  - change (PyStr.join ", " (l :: l2 :: ls))
      with (l +:+ ", " +:+ PyStr.join ", " (l2 :: ls)).
    rewrite split_go_lacks by done.
    change (", " +:+ PyStr.join ", " (l2 :: ls))
      with (String "," (String " " (PyStr.join ", " (l2 :: ls)))).
    cbn [PyStr.split_go]. rewrite Ascii.eqb_refl.
    change (Ascii.eqb " " ",") with false. cbv iota.
    change ("" +:+ " ") with " ".
    rewrite IH by done. by rewrite fmap_cons.
Qed.

(** No unwanted label starts with a space. *)
Lemma spaced_not_unwanted (x : string) : (" " +:+ x) ∉ unwanted_types.
Proof.
  unfold unwanted_types. rewrite !elem_of_cons, elem_of_nil.
  intros [H|[H|[]]]; discriminate.
Qed.

(** What [filter_businesses] stores for labels without a comma: only the
    first label is compared with the unwanted ones as it is; the others are
    compared with a space in front and are always kept. *)
Lemma filtered_types_tests_first_label_only (l : string) (ls : list string) :
  Forall (fun x => PyStr.lacks "," x = true) (l :: ls) ->
  filtered_types_string (PyStr.join ", " (l :: ls))
  = PyStr.join ", "
      (PyStr.strip <$> (filter (fun t => t ∉ unwanted_types) [l] ++ ls)).
Proof.
  intros Hall. unfold filtered_types_string, PyStr.split.
  rewrite split_join by done. change ("" +:+ l) with l.
  assert (PyStr.strip <$>
            filter (fun t => t ∉ unwanted_types)
                   ((fun x => " " +:+ x) <$> ls)
          = PyStr.strip <$> ls) as Hrest.
  { clear. induction ls as [|x ls IH]; [done|].
    rewrite fmap_cons, filter_cons_True by apply spaced_not_unwanted.
    rewrite !fmap_cons, IH. done. }
  rewrite fmap_app, !filter_cons, filter_nil.
  destruct (decide (l ∉ unwanted_types)); by rewrite ?fmap_cons, Hrest.
Qed.

End TypesFacts.

(** C6 does not hold of the code.  The labels are joined with a comma and a space
    and split again at the comma alone, and a label is compared with the
    unwanted ones before it is trimmed: of the labels
    [point_of_interest], [establishment], [bakery] only the first is
    removed, and the text stored is not [bakery]. *)
Lemma stored_types_keep_establishment :
  let p := {| p_name := Some "Bakery"%string; p_place_id := Some "id"%string;
              p_vicinity := None;
              p_types := Some ["point_of_interest"; "establishment";
                               "bakery"]%string |} in
  exists b,
    business_of_place p = Ok b /\
    PyStr.split "," (types b)
    = ["point_of_interest"; " establishment"; " bakery"]%string /\
    forall d, Types (make_row b d) = "establishment, bakery"%string.
Proof. intros p. eexists. split; [reflexivity|]. by split. Qed.

(** * Further properties *)

(** ** The grid beyond even positive densities *)

(** X1.  Below a density of 2 [get_grid_points] gives no grid: for a density
    of 0 or 1 the step is a division by [num_points // 2 = 0] and the call
    raises [ZeroDivisionError], whatever the radius; for a negative density
    the step is computed all the same, and raises [OverflowError] when it is
    beyond the floats; otherwise the two ranges are empty and the call
    returns the empty list. *)
Theorem get_grid_points_degenerate
        (math_cos : float -> float) (center_lat center_lng : float)
        (radius num_points : Z) :
  num_points < 2 ->
  get_grid_points math_cos center_lat center_lng radius num_points
  = if 0 <=? num_points then Raise ZeroDivisionError
    else obind (PyFloat.truediv_int radius (num_points / 2))
               (fun _ => Ok []).
Proof.
  intros Hn. unfold get_grid_points.
  destruct (Z.leb_spec 0 num_points) as [Hpos|Hneg].
  - replace (num_points / 2) with 0 by (Z.div_mod_to_equations; lia). done.
  - destruct (PyFloat.truediv_int radius (num_points / 2)); [|done..].
    cbn [obind]. unfold py_range. rewrite seqZ_nil; [done|].
    Z.div_mod_to_equations. lia.
Qed.

Lemma get_grid_points_degenerate_witness :
  get_grid_points Sample.cos_table 60 25 500 1 = Raise ZeroDivisionError /\
  get_grid_points Sample.cos_table 60 25 (10 ^ 400) 1
  = Raise ZeroDivisionError /\
  get_grid_points Sample.cos_table 60 25 500 (-4) = Ok [] /\
  get_grid_points Sample.cos_table 60 25 (10 ^ 400) (-4)
  = Raise OverflowError.
Proof.
  split; [|split; [|split]].
  - apply (get_grid_points_degenerate Sample.cos_table 60 25 500 1). lia.
  - apply (get_grid_points_degenerate Sample.cos_table 60 25 (10 ^ 400) 1).
    lia.
  - apply (get_grid_points_degenerate Sample.cos_table 60 25 500 (-4)). lia.
  - apply (get_grid_points_degenerate Sample.cos_table 60 25 (10 ^ 400) (-4)).
    lia.
Defined.

(** X2.  For an odd density of at least 3 whose offsets convert to floats,
    a radius whose step [radius / (num_points // 2)] is a float, and a
    longitude divisor that is a number other than zero, the grid still has
    [(num_points + 1)^2] points, but it is not centred: the offsets of rows
    and columns run from [-(num_points // 2) - 1] to [num_points // 2], one
    step more to the south and west than to the north and east. *)
Theorem get_grid_points_odd_density
        (math_cos : float -> float) (center_lat center_lng : float)
        (radius num_points : Z) (offset : float) :
  3 <= num_points -> Z.odd num_points = true ->
  num_points / 2 + 1 < PyFloat.int_overflow ->
  PyFloat.truediv_int radius (num_points / 2) = Ok offset ->
  is_nan (lng_divisor math_cos center_lat) = false ->
  PrimFloat.eqb (lng_divisor math_cos center_lat) 0 = false ->
  exists points : list point,
    get_grid_points math_cos center_lat center_lng radius num_points
    = Ok points /\
    length points = Z.to_nat ((num_points + 1) ^ 2) /\
    forall row col : nat,
      Z.of_nat row <= num_points -> Z.of_nat col <= num_points ->
      points !! (row * Z.to_nat (num_points + 1) + col)%nat
      = Some (offset_point math_cos center_lat center_lng offset
                (Z.of_nat row - num_points / 2 - 1)
                (Z.of_nat col - num_points / 2 - 1)).
Proof.
  intros Hn Hodd Hbound Hoff Hnan HD.
  assert (num_points = 2 * (num_points / 2) + 1
          /\ - num_points / 2 = - (num_points / 2) - 1) as [Hd Hneg].
  { pose proof (Zmod_odd num_points) as Hm. rewrite Hodd in Hm.
    split; Z.div_mod_to_equations; lia. }
  assert (forall i, - num_points / 2 <= i <= num_points / 2 ->
                    Z.abs i < PyFloat.int_overflow) as Hrng by lia.
  pose proof (get_grid_points_product math_cos center_lat center_lng
                radius num_points offset Hoff Hrng Hnan HD) as Hpts.
  cbv zeta in Hpts. rewrite Hneg in Hpts. unfold py_range in Hpts.
  replace (num_points / 2 + 1 - (- (num_points / 2) - 1))
    with (num_points + 1) in Hpts by lia.
  set (rng := seqZ (- (num_points / 2) - 1) (num_points + 1)) in *.
  assert (length rng = Z.to_nat (num_points + 1)) as Hlen
      by apply length_seqZ.
  exists (rng ≫= fun i => offset_point math_cos center_lat center_lng
                            offset i <$> rng).
  split; [done|split].
  - rewrite length_product, Hlen. lia.
  - intros row col Hr Hc. rewrite <- Hlen.
    apply lookup_product; unfold rng; rewrite lookup_seqZ; lia.
Qed.

Lemma get_grid_points_odd_density_witness :
  exists points : list point,
    get_grid_points Sample.cos_table 60 25 300 3 = Ok points /\
    length points = 16%nat /\
    points !! 0%nat
    = Some (offset_point Sample.cos_table 60 25 300 (-2) (-2)) /\
    points !! 15%nat
    = Some (offset_point Sample.cos_table 60 25 300 1 1).
Proof.
  destruct (get_grid_points_odd_density Sample.cos_table 60 25 300 3 300)
    as (points & Hpts & Hlen & Hat);
    [lia|reflexivity|reflexivity|reflexivity|reflexivity|reflexivity|].
  exists points. split; [done|]. split; [done|]. split.
  - apply (Hat 0%nat 0%nat); lia.
  - apply (Hat 3%nat 3%nat); lia.
Defined.

(** ** The order and the stability of the merge *)

Section MergeOrder.

Lemma filter_not_in_snoc {A} `{EqDecision A} (ks : list A) (k : A)
      (l : list A) :
  filter (fun y => y ∉ ks ++ [k]) l
  = filter (fun y => y ∉ ks) (filter (fun y => y <> k) l).
Proof.
  induction l as [|x l IH]; [done|].
  rewrite !filter_cons.
  destruct (decide (x <> k)) as [Hxk|Hxk].
  - rewrite filter_cons, <- IH.
    destruct (decide (x ∉ ks ++ [k])) as [Hx|Hx];
      destruct (decide (x ∉ ks)) as [Hx'|Hx']; try done; exfalso.
    + apply Hx'. intros Hin. apply Hx, elem_of_app. by left.
    + apply Hx. intros [Hin|Hin%list_elem_of_singleton]%elem_of_app; done.
  - rewrite <- IH. rewrite decide_False; [done|].
    intros Hx. apply Hx, elem_of_app. right.
    apply list_elem_of_singleton. by destruct (decide (x = k)).
Qed.

Lemma filter_not_in_absorb {A} `{EqDecision A} (ks : list A) (k : A)
      (l : list A) :
  k ∈ ks ->
  filter (fun y => y ∉ ks) (filter (fun y => y <> k) l)
  = filter (fun y => y ∉ ks) l.
Proof.
  intros Hk. induction l as [|x l IH]; [done|].
  rewrite !filter_cons.
  destruct (decide (x <> k)) as [Hxk|Hxk].
  - by rewrite filter_cons, IH.
  - rewrite IH. rewrite decide_False; [done|].
    intros Hx. apply Hx. by destruct (decide (x = k)) as [->|].
Qed.

(** The keys of the dictionary after a merge: the keys it had, then the new
    identifiers in the order of their first occurrence. *)
Lemma merge_keys (bs : list business) :
  forall d : list (option string * business),
    (fold_left merge_step bs d).*1
    = d.*1 ++ filter (fun k => k ∉ d.*1)
                     (first_occurrences (place_id <$> bs)).
Proof.
  induction bs as [|b bs IH]; intros d.
  - simpl. by rewrite app_nil_r.
  - cbn [fold_left]. rewrite IH.
    assert ((merge_step d b).*1
            = if decide (place_id b ∈ d.*1) then d.*1
              else d.*1 ++ [place_id b]) as -> by apply dict_set_keys.
    rewrite fmap_cons. cbn [first_occurrences]. rewrite filter_cons.
    destruct (decide (place_id b ∈ d.*1)) as [Hin|Hnin].
    + rewrite decide_False by (intros Hn; by apply Hn).
      by rewrite filter_not_in_absorb.
    + rewrite decide_True by done.
      by rewrite <- app_assoc, filter_not_in_snoc.
Qed.

Lemma filter_all {A} (P : A -> Prop) `{forall x, Decision (P x)} (l : list A) :
  (forall y, y ∈ l -> P y) -> filter P l = l.
Proof.
  induction l as [|a l IH]; intros Hl; [done|].
  rewrite filter_cons_True by (apply Hl; left).
  f_equal. apply IH. intros y Hy. apply Hl. by right.
Qed.

(** A list without repeated identifier is merged into itself. *)
Lemma merge_NoDup (bs : list business) :
  forall d : list (option string * business),
    NoDup (place_id <$> bs) ->
    (forall b, b ∈ bs -> place_id b ∉ d.*1) ->
    fold_left merge_step bs d = d ++ ((fun b => (place_id b, b)) <$> bs).
Proof.
  induction bs as [|b bs IH]; intros d Hnd Hd.
  - simpl. by rewrite app_nil_r.
  - rewrite fmap_cons in Hnd. apply NoDup_cons in Hnd as [Hb Hnd].
    cbn [fold_left]. rewrite IH; [|done|].
    + assert (merge_step d b = d ++ [(place_id b, b)]) as ->.
      { unfold merge_step. assert (place_id b ∉ d.*1) as Hbd
            by (apply Hd; left).
        clear -Hbd. induction d as [|[k v] d IHd]; [done|].
        cbn [dict_set]. rewrite fmap_cons in Hbd.
        apply not_elem_of_cons in Hbd as [Hne Hbd].
        rewrite decide_False by done. by rewrite IHd. }
      by rewrite <- app_assoc, fmap_cons.
    + intros b' Hb'.
      assert ((merge_step d b).*1
              = if decide (place_id b ∈ d.*1) then d.*1
                else d.*1 ++ [place_id b]) as -> by apply dict_set_keys.
      rewrite decide_False by (apply Hd; left).
      intros [Hin|Hin%list_elem_of_singleton]%elem_of_app.
      * by apply (Hd b'); [right|].
      * apply Hb. rewrite <- Hin. by apply list_elem_of_fmap_2.
Qed.

Lemma unique_businesses_id (bs : list business) :
  NoDup (place_id <$> bs) -> unique_businesses bs = bs.
Proof.
  intros Hnd. unfold unique_businesses.
  rewrite merge_NoDup; [|done|].
  - rewrite app_nil_l, <- list_fmap_compose.
    clear. induction bs as [|b bs IH]; [done|]. by rewrite fmap_cons, IH.
  - intros b _ Hin. by apply elem_of_nil in Hin.
Qed.

End MergeOrder.

(** X4.  The merge keeps the order of first sighting: the identifiers of the
    merged list are the identifiers of the input in the order of their first
    occurrence (while the business kept for each is the one seen last). *)
Theorem unique_businesses_first_seen_order (businesses : list business) :
  place_id <$> unique_businesses businesses
  = first_occurrences (place_id <$> businesses).
Proof.
  unfold unique_businesses.
  destruct (elem_of_merge businesses [] keyed_nil) as [Hk _].
  rewrite keyed_values by done. rewrite merge_keys. simpl.
  apply filter_all. intros y _ Hin. by apply elem_of_nil in Hin.
Qed.

(** X5.  Merging is stable: a list without repeated [place_id] is returned
    as it is, so merging a merged list changes nothing; and the merge never
    returns more businesses than it was given. *)
Theorem unique_businesses_idempotent (businesses : list business) :
  unique_businesses (unique_businesses businesses)
  = unique_businesses businesses /\
  (length (unique_businesses businesses) <= length businesses)%nat /\
  (NoDup (place_id <$> businesses) ->
   unique_businesses businesses = businesses).
Proof.
  split; [|split].
  - apply unique_businesses_id, unique_businesses_NoDup.
  - rewrite <- (length_fmap place_id (unique_businesses businesses)).
    unfold unique_businesses.
    destruct (elem_of_merge businesses [] keyed_nil) as [Hk _].
    rewrite keyed_values, merge_keys by done. simpl.
    rewrite <- (length_fmap place_id businesses).
    etrans; [apply length_filter|].
    generalize (place_id <$> businesses). clear.
    induction l as [|x l IH]; [done|]. simpl.
    pose proof (length_filter (fun y => y <> x) (first_occurrences l)). lia.
  - apply unique_businesses_id.
Qed.

(** ** The runs of a pass *)

Section Runs.
Variable E : Env.

(** Every run of [search_point] is a run of the relation. *)
Lemma search_point_run (pt : point) (metres : Z) (api_key : option string)
      (fuel : nat) :
  forall token bs t,
  exists calls o,
    search_point E fuel pt metres api_key token bs t = (o, t ++ calls) /\
    point_run pt metres api_key fuel token bs calls o.
Proof.
  induction fuel as [|fuel IH]; intros token bs t.
  - exists [], OutOfFuel. simpl. rewrite app_nil_r. split; [done|constructor].
  - cbn [search_point]. unfold bind, call, lift.
    fold (params_of pt metres api_key token).
    destruct (nearby_api E t (params_of pt metres api_key token))
      as [pg|e] eqn:Hreply.
    + fold (add_page pg bs).
      destruct (add_page pg bs) as [bs'|e|] eqn:Hpage.
      * destruct (PyStr.truthy (next_page_token pg)) eqn:Htok.
        -- destruct (IH (next_page_token pg) bs'
                        (t ++ [NearbyCall (params_of pt metres api_key token)
                                          (Reply pg)]))
             as (calls & o & Hrun & Hrel).
           eexists (_ :: calls), o. rewrite Hrun, <- app_assoc.
           split; [done|]. by eapply point_next_page.
        -- eexists [_], _. split; [done|]. by apply point_last_page.
      * eexists [_], _. split; [done|]. by apply point_bad_page.
      * exfalso. by destruct (page_businesses _ _ _ Hpage) as [? _].
    + eexists [_], _. split; [done|]. apply point_fails.
Qed.

(** Every run of the loop over the grid points is a run of the relation. *)
Lemma collect_businesses_run (fuel : nat) (metres : Z)
      (api_key : option string) (pts : list point) :
  forall bs t,
  exists calls o,
    for_eachM pts
      (fun pt businesses =>
         search_point E fuel pt metres api_key None businesses) bs t
    = (o, t ++ calls) /\
    pass_run fuel metres api_key pts bs calls o.
Proof.
  induction pts as [|pt pts IH]; intros bs t.
  - exists [], (Ok bs). simpl. rewrite app_nil_r. split; [done|constructor].
  - cbn [for_eachM]. unfold bind.
    destruct (search_point_run pt metres api_key fuel None bs t)
      as (c1 & o1 & Hrun1 & Hrel1).
    rewrite Hrun1. destruct o1 as [bs1|e|].
    + destruct (IH bs1 (t ++ c1)) as (c2 & o & Hrun2 & Hrel2).
      exists (c1 ++ c2), o. rewrite Hrun2, app_assoc. split; [done|].
      by eapply pass_goes_on.
    + exists c1, (Raise e). split; [done|]. by apply pass_stops.
    + exists c1, OutOfFuel. split; [done|]. by apply pass_stops.
Qed.

(** The grid search is the grid, then a run over its points, then the
    merge. *)
Lemma grid_search_run (fuel : nat) (center_lat center_lng : float)
      (metres : Z) (api_key : option string) (t : trace) :
  exists calls o,
    get_businesses_grid_search E fuel center_lat center_lng metres api_key t
    = (o, t ++ calls) /\
    match get_grid_points (math_cos E) center_lat center_lng metres 10 with
    | Ok pts =>
        exists o', pass_run fuel metres api_key pts [] calls o' /\
                   o = obind o' (fun bs => Ok (unique_businesses bs))
    | Raise e => calls = [] /\ o = Raise e
    | OutOfFuel => calls = [] /\ o = OutOfFuel
    end.
Proof.
  unfold get_businesses_grid_search, collect_businesses, bind, lift, ret.
  destruct (get_grid_points (math_cos E) center_lat center_lng metres 10)
    as [pts|e|].
  - destruct (collect_businesses_run fuel metres api_key pts [] t)
      as (calls & o' & Hrun & Hrel).
    rewrite Hrun. exists calls, (obind o' (fun bs => Ok (unique_businesses bs))).
    split; [by destruct o'|]. by exists o'.
  - exists [], (Raise e). by rewrite app_nil_r.
  - exists [], OutOfFuel. by rewrite app_nil_r.
Qed.

End Runs.

(** ** What a pass receives and what it returns *)

Section PassResults.

Lemma received_cons (ev : event) (calls : list event) :
  received (ev :: calls) = received [ev] ++ received calls.
Proof. unfold received. rewrite !bind_cons. by rewrite app_nil_r. Qed.

Lemma received_app (c1 c2 : list event) :
  received (c1 ++ c2) = received c1 ++ received c2.
Proof. apply bind_app. Qed.

Lemma received_page (p : nearby_params) (pg : page) :
  received [NearbyCall p (Reply pg)] = results pg.
Proof. unfold received. rewrite bind_cons. by rewrite app_nil_r. Qed.

(** A page gives one business per item, in order, or raises [TypeError]
    at an item without [types]. *)
Lemma add_page_spec (pg : page) (bs : list business) :
  match add_page pg bs with
  | Ok bs' =>
      exists new, bs' = bs ++ new /\
                  Forall2 (fun p b => business_of_place p = Ok b)
                          (results pg) new
  | Raise e =>
      e = TypeError /\ exists p, p ∈ results pg /\ p_types p = None
  | OutOfFuel => False
  end.
Proof.
  unfold add_page. generalize (results pg) as ps. intros ps. revert bs.
  induction ps as [|p ps IH]; intros bs; simpl.
  - exists []. by rewrite app_nil_r.
  - unfold business_of_place at 1.
    destruct (p_types p) as [ts|] eqn:Hts; simpl.
    + specialize (IH (bs ++ [ {| name := p_name p; place_id := p_place_id p;
                                 address := p_vicinity p;
                                 types := PyStr.join ", " ts |} ])).
      destruct (for_each ps _ _) as [bs'|e|]; [| |done].
      * destruct IH as (new & -> & Hnew). eexists (_ :: new).
        rewrite <- app_assoc. split; [done|]. constructor; [|done].
        unfold business_of_place. by rewrite Hts.
      * destruct IH as (-> & p' & Hp' & Hnone). split; [done|].
        exists p'. split; [by right|done].
    + split; [done|]. exists p. split; [left|done].
Qed.

Variables (metres : Z) (api_key : option string).

(** The businesses a point adds are those of the items it received. *)
Lemma point_run_received pt fuel token bs calls o :
  point_run pt metres api_key fuel token bs calls o ->
  forall bs', o = Ok bs' ->
    exists new, bs' = bs ++ new /\
                Forall2 (fun p b => business_of_place p = Ok b)
                        (received calls) new.
Proof.
  induction 1 as [token bs|fuel token bs e|fuel token bs pg e Hpg
                  |fuel token bs pg bs1 Hpg Htok
                  |fuel token bs pg bs1 calls o Hpg Htok Hrun IH];
    intros bs' Ho; try done.
  - injection Ho as <-. pose proof (add_page_spec pg bs) as Hs.
    rewrite Hpg in Hs. by rewrite received_page.
  - pose proof (add_page_spec pg bs) as Hs. rewrite Hpg in Hs.
    destruct Hs as (new1 & -> & Hnew1).
    destruct (IH bs' Ho) as (new2 & -> & Hnew2).
    exists (new1 ++ new2). rewrite <- app_assoc. split; [done|].
    rewrite received_cons, received_page. by apply Forall2_app.
Qed.

Lemma pass_run_received fuel pts bs calls o :
  pass_run fuel metres api_key pts bs calls o ->
  forall bs', o = Ok bs' ->
    exists new, bs' = bs ++ new /\
                Forall2 (fun p b => business_of_place p = Ok b)
                        (received calls) new.
Proof.
  induction 1 as [bs|pt pts bs calls o Hpt Hno
                  |pt pts bs bs1 c1 c2 o Hpt Hrest IH]; intros bs' Ho.
  - injection Ho as <-. exists []. rewrite app_nil_r. split; [done|].
    constructor.
  - by destruct (Hno bs').
  - destruct (point_run_received _ _ _ _ _ _ Hpt bs1 eq_refl)
      as (new1 & -> & Hnew1).
    destruct (IH bs' Ho) as (new2 & -> & Hnew2).
    exists (new1 ++ new2). rewrite <- app_assoc. split; [done|].
    rewrite received_app. by apply Forall2_app.
Qed.

(** A page that is added has no item without [types]. *)
Lemma add_page_typed (pg : page) (bs bs' : list business) (p : place) :
  add_page pg bs = Ok bs' -> p ∈ results pg -> p_types p = None -> False.
Proof.
  intros Hpg Hp Hnone.
  pose proof (add_page_spec pg bs) as Hs. rewrite Hpg in Hs.
  destruct Hs as (new & _ & Hnew).
  apply list_elem_of_lookup in Hp as [i Hi].
  destruct (Forall2_lookup_l _ _ _ _ _ Hnew Hi) as (b & _ & Hb).
  unfold business_of_place in Hb. by rewrite Hnone in Hb.
Qed.

(** A page with an item without [types] is the last call of its point, and
    the point raises [TypeError]. *)
Lemma point_run_untyped pt fuel token bs calls o :
  point_run pt metres api_key fuel token bs calls o ->
  forall params pg p,
    NearbyCall params (Reply pg) ∈ calls ->
    p ∈ results pg -> p_types p = None ->
    o = Raise TypeError /\
    exists earlier, calls = earlier ++ [NearbyCall params (Reply pg)].
Proof.
  induction 1 as [token bs|fuel token bs e|fuel token bs pg e Hpg
                  |fuel token bs pg bs1 Hpg Htok
                  |fuel token bs pg bs1 calls o Hpg Htok Hrun IH];
    intros params pg' p Hin Hp Hnone.
  - by apply elem_of_nil in Hin.
  - apply list_elem_of_singleton in Hin. discriminate.
  - apply list_elem_of_singleton in Hin. injection Hin as -> ->.
    pose proof (add_page_spec pg bs) as Hs. rewrite Hpg in Hs.
    destruct Hs as [-> _]. split; [done|]. by exists [].
  - apply list_elem_of_singleton in Hin. injection Hin as -> ->.
    by destruct (add_page_typed _ _ _ _ Hpg Hp Hnone).
  - apply elem_of_cons in Hin as [Hin|Hin].
    + injection Hin as -> ->. by destruct (add_page_typed _ _ _ _ Hpg Hp Hnone).
    + destruct (IH _ _ _ Hin Hp Hnone) as [-> [earlier ->]].
      split; [done|]. by eexists (_ :: earlier).
Qed.

Lemma pass_run_untyped fuel pts bs calls o :
  pass_run fuel metres api_key pts bs calls o ->
  forall params pg p,
    NearbyCall params (Reply pg) ∈ calls ->
    p ∈ results pg -> p_types p = None ->
    o = Raise TypeError /\
    exists earlier, calls = earlier ++ [NearbyCall params (Reply pg)].
Proof.
  induction 1 as [bs|pt pts bs calls o Hpt Hno
                  |pt pts bs bs1 c1 c2 o Hpt Hrest IH];
    intros params pg p Hin Hp Hnone.
  - by apply elem_of_nil in Hin.
  - by eapply point_run_untyped.
  - apply elem_of_app in Hin as [Hin|Hin].
    + by destruct (point_run_untyped _ _ _ _ _ _ Hpt _ _ _ Hin Hp Hnone).
    + destruct (IH _ _ _ Hin Hp Hnone) as [-> [earlier ->]].
      split; [done|]. exists (c1 ++ earlier). by rewrite app_assoc.
Qed.

End PassResults.

(** ** Items without [place_id] *)

Section LastItem.
Variable E : Env.

Lemma business_of_place_id (p : place) (b : business) :
  business_of_place p = Ok b -> place_id b = p_place_id p.
Proof.
  unfold business_of_place. destruct (p_types p); [|done].
  by intros [= <-].
Qed.

(** Items whose businesses do not carry an identifier do not carry it. *)
Lemma items_without_id (ps : list place) (bs : list business)
      (id : option string) :
  Forall2 (fun p b => business_of_place p = Ok b) ps bs ->
  Forall (fun b => place_id b <> id) bs ->
  Forall (fun p => p_place_id p <> id) ps.
Proof.
  induction 1 as [|p b ps bs Hpb _ IH]; [constructor|].
  intros [Hb Hbs]%Forall_cons. constructor; [|by apply IH].
  by rewrite <- (business_of_place_id _ _ Hpb).
Qed.

(** The items of a page received are among the items received. *)
Lemma elem_of_received (calls : list event) (params : nearby_params)
      (pg : page) (p : place) :
  NearbyCall params (Reply pg) ∈ calls -> p ∈ results pg ->
  p ∈ received calls.
Proof.
  intros Hin Hp. unfold received. apply list_elem_of_bind.
  by exists (NearbyCall params (Reply pg)).
Qed.

(** What a pass returns is the merge of the businesses of the items it
    received. *)
Lemma grid_search_merge (fuel : nat) (center_lat center_lng : float)
      (metres : Z) (api_key : option string) (t calls : trace)
      (merged : list business) :
  get_businesses_grid_search E fuel center_lat center_lng metres api_key t
  = (Ok merged, t ++ calls) ->
  exists raw,
    Forall2 (fun p b => business_of_place p = Ok b) (received calls) raw /\
    merged = unique_businesses raw.
Proof.
  intros Hrun.
  destruct (grid_search_run E fuel center_lat center_lng metres api_key t)
    as (calls' & o & Hrun' & Hrel).
  rewrite Hrun in Hrun'. injection Hrun' as <- Hc.
  apply app_inv_head in Hc as <-.
  destruct (get_grid_points _ _ _ _ _) as [pts|e|];
    [|by destruct Hrel|by destruct Hrel].
  destruct Hrel as (o' & Hpass & Ho).
  destruct o' as [bs|e|]; try done. injection Ho as ->.
  destruct (pass_run_received _ _ _ _ _ _ _ Hpass bs eq_refl)
    as (new & -> & Hnew).
  by exists new.
Qed.

End LastItem.

(** C8, as the code has it.  An item is not dropped for lacking a
    [place_id]: it becomes a business whose [place_id] is [None] and is
    merged under that key like any other.  For every item [p] of every page
    received in a pass, with a [place_id] or without, the list the grid
    search returns holds exactly one business with the [place_id] of [p],
    be it [None]: the business of the last item received that has this
    [place_id].  Of the items without [place_id], then, the one received
    last is returned and the others are replaced by it. *)
Theorem grid_search_keeps_every_item
        (E : Env) (fuel : nat) (center_lat center_lng : float) (radius : Z)
        (api_key : option string) (t calls : trace)
        (merged : list business) (params : nearby_params) (pg : page)
        (p : place) :
  get_businesses_grid_search E fuel center_lat center_lng radius api_key t
  = (Ok merged, t ++ calls) ->
  NearbyCall params (Reply pg) ∈ calls ->
  p ∈ results pg ->
  NoDup (place_id <$> merged) /\
  exists (before : list place) (q : place) (after : list place)
         (b : business),
    received calls = before ++ q :: after /\
    p_place_id q = p_place_id p /\
    Forall (fun q' => p_place_id q' <> p_place_id p) after /\
    business_of_place q = Ok b /\
    filter (fun b' => place_id b' = p_place_id p) merged = [b].
Proof.
  intros Hrun Hin Hp.
  destruct (grid_search_merge E _ _ _ _ _ _ _ _ Hrun) as (raw & Hraw & ->).
  split; [apply unique_businesses_NoDup|].
  pose proof (elem_of_received calls params pg p Hin Hp) as Hrec.
  assert (p_place_id p ∈ place_id <$> raw) as Hid.
  { apply list_elem_of_lookup in Hrec as [i Hi].
    destruct (Forall2_lookup_l _ _ _ _ _ Hraw Hi) as (b0 & Hb0 & Hpb).
    rewrite <- (business_of_place_id _ _ Hpb).
    apply list_elem_of_fmap_2. by eapply list_elem_of_lookup_2. }
  destruct (exists_last_seen raw _ Hid)
    as (b & Hb & rb & ra & -> & Hafter).
  apply Forall2_app_inv_r in Hraw
    as (before & rest & Hbefore & Hrest & Hsplit).
  apply Forall2_cons_inv_r in Hrest as (q & after & Hqb & Hafter2 & ->).
  exists before, q, after, b. split; [done|].
  pose proof (business_of_place_id _ _ Hqb) as Hq.
  split; [congruence|]. split; [|split; [done|]].
  - rewrite <- Hb. by apply (items_without_id after ra).
  - rewrite <- Hb. apply filter_key_NoDup; [apply unique_businesses_NoDup|].
    apply elem_of_unique_businesses. by exists rb, ra.
Qed.

(** Every point answers with two items without [place_id]: the pass returns
    one business without [place_id], the one of the item received last. *)
Lemma grid_search_keeps_every_item_witness :
  let run :=
    get_businesses_grid_search Sample.env_two_nameless 1 60 25 500
                               (Some "key"%string) [] in
  let merged := [Sample.business_of Sample.Stall] in
  fst run = Ok merged /\
  p_place_id Sample.Nameless = None /\
  NoDup (place_id <$> merged) /\
  exists (before : list place) (q : place) (after : list place)
         (b : business),
    received (snd run) = before ++ q :: after /\
    p_place_id q = None /\
    Forall (fun q' => p_place_id q' <> None) after /\
    business_of_place q = Ok b /\
    filter (fun b' => place_id b' = None) merged = [b].
Proof.
  intros run merged.
  assert (fst run = Ok merged) as Hrun by (vm_compute; reflexivity).
  refine (conj Hrun (conj eq_refl _)).
  apply (grid_search_keeps_every_item
           Sample.env_two_nameless 1 60 25 500 (Some "key"%string) []
           (snd run) merged
           {| location := offset_point Sample.cos_table 60 25 100 (-5) (-5);
              radius := 500; type_ := "store"; key := Some "key"%string;
              pagetoken := None |}
           {| results := [Sample.Nameless; Sample.Stall];
              next_page_token := None |}
           Sample.Nameless).
  - rewrite <- Hrun. reflexivity.
  - vm_compute. left.
  - left.
Defined.

(** Of two items without [place_id] the merge keeps the second. *)
Example unique_businesses_two_nameless :
  unique_businesses [Sample.business_of Sample.Nameless;
                     Sample.business_of Sample.Stall]
  = [Sample.business_of Sample.Stall].
Proof. reflexivity. Qed.

(** X6.  What the grid search returns is the merge of what it received: one
    business for every result item of every page, in the order of
    reception over all grid points and pages, reduced by
    [unique_businesses]. *)
Theorem grid_search_returns_merge_of_received
        (E : Env) (fuel : nat) (center_lat center_lng : float) (metres : Z)
        (api_key : option string) (t calls : trace)
        (merged : list business) :
  get_businesses_grid_search E fuel center_lat center_lng metres api_key t
  = (Ok merged, t ++ calls) ->
  exists raw,
    Forall2 (fun p b => business_of_place p = Ok b) (received calls) raw /\
    merged = unique_businesses raw.
Proof.
  intros Hrun.
  destruct (grid_search_run E fuel center_lat center_lng metres api_key t)
    as (calls' & o & Hrun' & Hrel).
  rewrite Hrun in Hrun'. injection Hrun' as <- Hc.
  apply app_inv_head in Hc as <-.
  destruct (get_grid_points _ _ _ _ _) as [pts|e|];
    [|by destruct Hrel|by destruct Hrel].
  destruct Hrel as (o' & Hpass & Ho).
  destruct o' as [bs|e|]; try done. injection Ho as ->.
  destruct (pass_run_received _ _ _ _ _ _ _ Hpass bs eq_refl)
    as (new & -> & Hnew).
  by exists new.
Qed.

Lemma grid_search_returns_merge_of_received_witness :
  let run :=
    get_businesses_grid_search Sample.env 2 60 25 1000
                               (Some "key"%string) [] in
  length (received (snd run)) = 484%nat /\
  exists raw,
    Forall2 (fun p b => business_of_place p = Ok b) (received (snd run)) raw /\
    Sample.business_of <$> [Sample.Alpha; Sample.Beta; Sample.Gamma]
    = unique_businesses raw.
Proof.
  intros run. split; [by vm_compute|].
  apply (grid_search_returns_merge_of_received
           Sample.env 2 60 25 1000 (Some "key"%string) [] (snd run)).
  vm_compute. reflexivity.
Defined.

(** X9.  A result item without [types] ends the pass: [', '.join(None)]
    raises [TypeError] at the page that holds it, that page is the last
    call, and the grid search returns nothing, whatever the other items and
    points hold. *)
Theorem grid_search_item_without_types
        (E : Env) (fuel : nat) (center_lat center_lng : float) (metres : Z)
        (api_key : option string) (t calls : trace)
        (o : outcome (list business)) (params : nearby_params) (pg : page)
        (p : place) :
  get_businesses_grid_search E fuel center_lat center_lng metres api_key t
  = (o, t ++ calls) ->
  NearbyCall params (Reply pg) ∈ calls ->
  p ∈ results pg -> p_types p = None ->
  o = Raise TypeError /\
  exists earlier, calls = earlier ++ [NearbyCall params (Reply pg)].
Proof.
  intros Hrun Hin Hp Hnone.
  destruct (grid_search_run E fuel center_lat center_lng metres api_key t)
    as (calls' & o0 & Hrun' & Hrel).
  rewrite Hrun in Hrun'. injection Hrun' as <- Hc.
  apply app_inv_head in Hc as <-.
  destruct (get_grid_points _ _ _ _ _) as [pts|e|].
  - destruct Hrel as (o' & Hpass & ->).
    destruct (pass_run_untyped _ _ _ _ _ _ _ Hpass _ _ _ Hin Hp Hnone)
      as [-> Hlast].
    by split.
  - destruct Hrel as [-> _]. by apply elem_of_nil in Hin.
  - destruct Hrel as [-> _]. by apply elem_of_nil in Hin.
Qed.

Lemma grid_search_item_without_types_witness :
  let run :=
    get_businesses_grid_search Sample.env_untyped 2 60 25 500
                               (Some "key"%string) [] in
  fst run = Raise TypeError /\
  exists earlier,
    snd run
    = earlier
      ++ [NearbyCall
            (params_of (offset_point Sample.cos_table 60 25 100 (-5) (-5))
                       500 (Some "key"%string) None)
            (Reply {| results := [Sample.Alpha; Sample.Untyped];
                      next_page_token := None |})].
Proof.
  intros run.
  apply (grid_search_item_without_types
           Sample.env_untyped 2 60 25 500 (Some "key"%string) []
           (snd run) (fst run) _ _ Sample.Untyped).
  - reflexivity.
  - vm_compute. left.
  - right. left.
  - reflexivity.
Defined.

(** ** The requests of a pass *)

Section PassRequests.
Variables (metres : Z) (api_key : option string).

Lemma point_run_requests pt fuel token bs calls o :
  point_run pt metres api_key fuel token bs calls o ->
  Forall (fun ev => exists tok r,
              ev = NearbyCall (params_of pt metres api_key tok) r) calls /\
  (forall bs', o = Ok bs' ->
     exists r rest,
       calls = NearbyCall (params_of pt metres api_key token) r :: rest).
Proof.
  induction 1 as [token bs|fuel token bs e|fuel token bs pg e Hpg
                  |fuel token bs pg bs1 Hpg Htok
                  |fuel token bs pg bs1 calls o Hpg Htok Hrun [IH _]].
  - split; [constructor|done].
  - split; [|done]. constructor; [eauto|constructor].
  - split; [|done]. constructor; [eauto|constructor].
  - split; [constructor; [eauto|constructor]|eauto].
  - split; [constructor; [eauto|done]|eauto].
Qed.

Lemma pass_run_requests fuel pts bs calls o :
  pass_run fuel metres api_key pts bs calls o ->
  Forall (fun ev => exists pt tok r,
              pt ∈ pts /\
              ev = NearbyCall (params_of pt metres api_key tok) r) calls /\
  (forall bs', o = Ok bs' ->
     forall pt, pt ∈ pts ->
       exists r, NearbyCall (params_of pt metres api_key None) r ∈ calls).
Proof.
  induction 1 as [bs|pt pts bs calls o Hpt Hno
                  |pt pts bs bs1 c1 c2 o Hpt Hrest [IHall IHcov]].
  - split; [constructor|]. intros _ _ pt Hpt. by apply elem_of_nil in Hpt.
  - destruct (point_run_requests _ _ _ _ _ _ Hpt) as [Hall _]. split.
    + eapply Forall_impl; [exact Hall|]. intros ev (tok & r & ->).
      exists pt, tok, r. split; [left|done].
    + intros bs' Ho. by destruct (Hno bs').
  - destruct (point_run_requests _ _ _ _ _ _ Hpt) as [Hall Hfirst]. split.
    + apply Forall_app. split.
      * eapply Forall_impl; [exact Hall|]. intros ev (tok & r & ->).
        exists pt, tok, r. split; [left|done].
      * eapply Forall_impl; [exact IHall|]. intros ev (pt' & tok & r & ? & ->).
        exists pt', tok, r. split; [by right|done].
    + intros bs' Ho pt' [->|Hin]%elem_of_cons.
      * destruct (Hfirst bs1 eq_refl) as (r & rest & ->).
        exists r. apply elem_of_app. left. left.
      * destruct (IHcov bs' Ho pt' Hin) as [r Hr].
        exists r. apply elem_of_app. by right.
Qed.

(** The pagination of a point: tokens are passed on, and the calls are no
    more than the fuel. *)
Lemma point_run_tokens pt fuel token bs calls o :
  point_run pt metres api_key fuel token bs calls o ->
  follows_tokens pt metres api_key token calls /\
  (length calls <= fuel)%nat /\
  (o = OutOfFuel -> length calls = fuel).
Proof.
  induction 1 as [token bs|fuel token bs e|fuel token bs pg e Hpg
                  |fuel token bs pg bs1 Hpg Htok
                  |fuel token bs pg bs1 calls o Hpg Htok Hrun
                     (IHtok & IHlen & IHout)]; simpl.
  - done.
  - repeat split; [lia|done].
  - repeat split; [by destruct (PyStr.truthy _)|lia|done].
  - rewrite Htok. repeat split; [lia|done].
  - rewrite Htok. repeat split; [done|lia|]. intros Ho. by rewrite IHout.
Qed.

End PassRequests.

(** X7.  Every call of a pass of the grid search is a nearby search at one
    of the 121 points of the grid, with the radius of the pass, the type
    [store] and the key; and a pass that returns has queried every point of
    the grid, the first time without page token. *)
Theorem grid_search_queries_the_grid
        (E : Env) (fuel : nat) (center_lat center_lng : float) (metres : Z)
        (api_key : option string) (t : trace) :
  exists calls,
    snd (get_businesses_grid_search E fuel center_lat center_lng metres
                                    api_key t) = t ++ calls /\
    Forall (fun ev =>
              exists grid_points pt tok r,
                get_grid_points (math_cos E) center_lat center_lng metres 10
                = Ok grid_points /\
                pt ∈ grid_points /\
                ev = NearbyCall (params_of pt metres api_key tok) r)
           calls /\
    forall merged grid_points,
      fst (get_businesses_grid_search E fuel center_lat center_lng metres
                                      api_key t) = Ok merged ->
      get_grid_points (math_cos E) center_lat center_lng metres 10
      = Ok grid_points ->
      forall pt, pt ∈ grid_points ->
        exists r, NearbyCall (params_of pt metres api_key None) r ∈ calls.
Proof.
  destruct (grid_search_run E fuel center_lat center_lng metres api_key t)
    as (calls & o & Hrun & Hrel).
  exists calls. rewrite Hrun. simpl. split; [done|].
  destruct (get_grid_points _ _ _ _ _) as [pts|e|].
  - destruct Hrel as (o' & Hpass & ->).
    destruct (pass_run_requests _ _ _ _ _ _ _ Hpass) as [Hall Hcov]. split.
    + eapply Forall_impl; [exact Hall|].
      intros ev (pt & tok & r & Hpt & ->). by exists pts, pt, tok, r.
    + intros merged grid_points Ho [= <-] pt Hpt.
      destruct o' as [bs|e|]; try done. by eapply Hcov.
  - destruct Hrel as [Hc Ho]. subst calls o. split; [constructor|done].
  - destruct Hrel as [Hc Ho]. subst calls o. split; [constructor|done].
Qed.

(** X8.  The pagination at one grid point follows the tokens: the first
    request carries the token the loop starts with (none, when it is empty
    or absent), every later request carries the [next_page_token] of the
    page before it, and no request follows a failure or a page whose token
    is empty or absent.  The loop makes at most [fuel] requests, and runs
    out of fuel only after exactly that many. *)
Theorem search_point_follows_tokens
        (E : Env) (fuel : nat) (pt : point) (metres : Z)
        (api_key token : option string) (bs : list business) (t : trace) :
  exists calls,
    snd (search_point E fuel pt metres api_key token bs t) = t ++ calls /\
    follows_tokens pt metres api_key token calls /\
    (length calls <= fuel)%nat /\
    (fst (search_point E fuel pt metres api_key token bs t) = OutOfFuel ->
     length calls = fuel).
Proof.
  destruct (search_point_run E pt metres api_key fuel token bs t)
    as (calls & o & Hrun & Hrel).
  exists calls. rewrite Hrun. simpl. split; [done|].
  by apply (point_run_tokens metres api_key pt fuel token bs calls o).
Qed.

(** ** More on the filter *)

Section FilterMore.
Variable E : Env.
Variable api_key : option string.
Variable prev : gset (option string).
Variable n : Z.

(** The calls of the loop, whatever its outcome. *)
Lemma filter_loop_calls (bs : list business) :
  forall results t,
  exists calls,
    snd (filter_loop E api_key prev n bs results t) = t ++ calls /\
    Forall is_details_call calls /\
    (length calls <= length bs)%nat /\
    fst (filter_loop E api_key prev n bs results t) <> OutOfFuel /\
    forall id k e,
      DetailsCall id k (Fails e) ∈ calls ->
      fst (filter_loop E api_key prev n bs results t) = Raise e /\
      exists earlier, calls = earlier ++ [DetailsCall id k (Fails e)].
Proof.
  induction bs as [|b bs IH]; intros results t.
  - exists []. simpl. rewrite app_nil_r.
    split; [done|]. split; [constructor|]. split; [done|]. split; [done|].
    intros id k e Hin. by apply elem_of_nil in Hin.
  - destruct (decide (name b ∈ prev)) as [Hb|Hb].
    + rewrite filter_loop_skip by done.
      destruct (IH results t) as (calls & Htr & Hall & Hlen & Hfuel & Hfail).
      exists calls.
      split; [done|]. split; [done|]. split; [simpl; lia|]. by split.
    + destruct (details_api E t (place_id b) api_key) as [d|e] eqn:Hd.
      * rewrite (filter_loop_lookup _ _ _ _ _ _ _ _ d) by done. cbv zeta.
        destruct (Z.of_nat (length _) >=? n).
        -- exists [DetailsCall (place_id b) api_key (Reply d)]. simpl.
           split; [done|]. split; [by repeat constructor|].
           split; [lia|]. split; [done|].
           intros id k e Hin. apply list_elem_of_singleton in Hin.
           discriminate.
        -- destruct (IH (if qualifies d then results ++ [make_row b d]
                         else results)
                        (t ++ [DetailsCall (place_id b) api_key (Reply d)]))
             as (calls & Htr & Hall & Hlen & Hfuel & Hfail).
           exists (DetailsCall (place_id b) api_key (Reply d) :: calls).
           rewrite Htr, <- app_assoc.
           split; [done|]. split; [by constructor|].
           split; [simpl; lia|]. split; [done|].
           intros id k e Hin.
           apply elem_of_cons in Hin as [Hin|Hin]; [discriminate|].
           destruct (Hfail _ _ _ Hin) as [Ho [earlier ->]].
           split; [done|]. by eexists (_ :: earlier).
      * rewrite (filter_loop_fails _ _ _ _ _ _ _ _ e) by done.
        exists [DetailsCall (place_id b) api_key (Fails e)]. simpl.
        split; [done|]. split; [by repeat constructor|].
        split; [lia|]. split; [done|].
        intros id k e' Hin. apply list_elem_of_singleton in Hin.
        injection Hin as -> -> ->. split; [done|]. by exists [].
Qed.

(** With an oracle that answers [D id] whatever came before, the loop
    returns the rows so far and the first rows of what is left, up to the
    target. *)
Lemma filter_loop_take (D : option string -> details) (bs : list business) :
  (forall t id, details_api E t id api_key = Reply (D id)) ->
  forall results t,
    Z.of_nat (length results) < n ->
    fst (filter_loop E api_key prev n bs results t)
    = Ok (results ++ take (Z.to_nat n - length results)
                          (omap (row_of prev D) bs)).
Proof.
  intros HD. induction bs as [|b bs IH]; intros results t Hlt.
  - simpl. by rewrite take_nil, app_nil_r.
  - cbn [omap list_omap]. unfold row_of at 1.
    destruct (decide (name b ∈ prev)) as [Hb|Hb].
    + rewrite filter_loop_skip by done. by apply IH.
    + rewrite (filter_loop_lookup _ _ _ _ _ _ _ _ (D (place_id b)))
        by done.
      cbv zeta. destruct (qualifies (D (place_id b))) eqn:Hq.
      * destruct (Z.geb_spec
                    (Z.of_nat (length (results
                                       ++ [make_row b (D (place_id b))]))) n)
          as [Hge|Hlt'];
          rewrite length_app in *; simpl in *.
        -- replace (Z.to_nat n - length results)%nat with 1%nat by lia.
           done.
        -- rewrite IH by (rewrite length_app; simpl; lia).
           rewrite length_app, <- app_assoc. simpl.
           replace (Z.to_nat n - length results)%nat
             with (S (Z.to_nat n - (length results + 1)))%nat by lia.
           done.
      * destruct (Z.geb_spec (Z.of_nat (length results)) n); [lia|].
        by apply IH.
Qed.

End FilterMore.

(** X10.  The filter makes details calls only, at most one for every
    business it is given, and it always ends.  A details call that fails is
    its last call: the filter raises the exception of that call and the
    rows found so far are lost. *)
Theorem filter_businesses_failure_aborts
        (E : Env) (businesses : list business) (api_key : option string)
        (prev : gset (option string)) (n : Z) (t : trace) :
  exists calls,
    snd (filter_businesses E businesses api_key prev n t) = t ++ calls /\
    Forall is_details_call calls /\
    (length calls <= length businesses)%nat /\
    fst (filter_businesses E businesses api_key prev n t) <> OutOfFuel /\
    forall id k e,
      DetailsCall id k (Fails e) ∈ calls ->
      fst (filter_businesses E businesses api_key prev n t) = Raise e /\
      exists earlier, calls = earlier ++ [DetailsCall id k (Fails e)].
Proof. unfold filter_businesses. apply filter_loop_calls. Qed.

(** X11.  With a target of zero or less the filter does not return at once:
    the test [len(results) >= n] comes after a lookup, so the first business
    that is not passed over is looked up, its row is returned if it
    qualifies, and nothing after it is examined. *)
Theorem filter_businesses_nonpositive_target
        (E : Env) (api_key : option string) (prev : gset (option string))
        (n : Z) (pre : list business) (b : business) (post : list business)
        (t : trace) (d : details) :
  n <= 0 ->
  Forall (fun b' => name b' ∈ prev) pre ->
  name b ∉ prev ->
  details_api E t (place_id b) api_key = Reply d ->
  filter_businesses E (pre ++ b :: post) api_key prev n t
  = (Ok (if qualifies d then [make_row b d] else []),
     t ++ [DetailsCall (place_id b) api_key (Reply d)]).
Proof.
  intros Hn Hpre Hb Hd. unfold filter_businesses.
  rewrite filter_loop_all_skipped by done.
  rewrite (filter_loop_lookup _ _ _ _ _ _ _ _ d) by done. cbv zeta.
  destruct (Z.geb_spec (Z.of_nat (length (if qualifies d
                                          then [] ++ [make_row b d]
                                          else []))) n); [done|lia].
Qed.

Lemma filter_businesses_nonpositive_target_witness :
  filter_businesses Sample.env
    (Sample.business_of <$> [Sample.Alpha; Sample.Beta; Sample.Gamma])
    (Some "key"%string) {[Some "Alpha"%string]} 0 []
  = (Ok [make_row (Sample.business_of Sample.Beta) Sample.phone_only],
     [DetailsCall (Some "idB"%string) (Some "key"%string)
                  (Reply Sample.phone_only)]).
Proof.
  apply (filter_businesses_nonpositive_target
           Sample.env (Some "key"%string) {[Some "Alpha"%string]} 0
           [Sample.business_of Sample.Alpha] (Sample.business_of Sample.Beta)
           [Sample.business_of Sample.Gamma] [] Sample.phone_only).
  - lia.
  - constructor; [|constructor]. by apply elem_of_singleton.
  - vm_compute. intros H. inversion H.
  - reflexivity.
Defined.

(** X12.  When the details service answers by identifier alone and never
    fails, the filter with a target of at least one returns the rows of the
    businesses that are not passed over and qualify, in the order of its
    input, cut at the target. *)
Theorem filter_businesses_first_rows
        (E : Env) (D : option string -> details) (businesses : list business)
        (api_key : option string) (prev : gset (option string)) (n : Z)
        (t : trace) :
  (forall t0 id, details_api E t0 id api_key = Reply (D id)) ->
  1 <= n ->
  fst (filter_businesses E businesses api_key prev n t)
  = Ok (take (Z.to_nat n) (omap (row_of prev D) businesses)).
Proof.
  intros HD Hn. unfold filter_businesses.
  rewrite (filter_loop_take E api_key prev n D) by (done || simpl; lia).
  simpl. by rewrite Nat.sub_0_r.
Qed.

Lemma filter_businesses_first_rows_witness :
  fst (filter_businesses Sample.env
         (Sample.business_of <$> [Sample.Alpha; Sample.Beta; Sample.Gamma])
         (Some "key"%string) ∅ 1 [])
  = Ok (take 1 (omap (row_of ∅ Sample.details_of)
                     (Sample.business_of
                        <$> [Sample.Alpha; Sample.Beta; Sample.Gamma]))).
Proof.
  apply (filter_businesses_first_rows Sample.env Sample.details_of).
  - intros t0 id. simpl. unfold Sample.lookup, Sample.details_of.
    by destruct (decide (id = Some "idA"%string)).
  - lia.
Defined.

(** ** The calls of a run *)

Section Emits.

Lemma emits_ret {A} (P : event -> Prop) (a : A) : emits P (ret a).
Proof. intros t. exists []. simpl. by rewrite app_nil_r. Qed.

Lemma emits_lift {A} (P : event -> Prop) (o : outcome A) : emits P (lift o).
Proof. intros t. exists []. simpl. by rewrite app_nil_r. Qed.

Lemma emits_call {A} (P : event -> Prop) (ask : trace -> reply A)
      (log : reply A -> event) :
  (forall r, P (log r)) -> emits P (call ask log).
Proof.
  intros Hlog t. exists [log (ask t)]. split; [done|].
  by repeat constructor.
Qed.

Lemma emits_bind {A B} (P : event -> Prop) (m : M A) (k : A -> M B) :
  emits P m -> (forall a, emits P (k a)) -> emits P (bind m k).
Proof.
  intros Hm Hk t. unfold bind. destruct (Hm t) as (c1 & Ht1 & Hc1).
  destruct (m t) as [[a|e|] t1]; simpl in Ht1; subst t1.
  - destruct (Hk a (t ++ c1)) as (c2 & Ht2 & Hc2).
    exists (c1 ++ c2). rewrite Ht2, app_assoc. split; [done|].
    by apply Forall_app.
  - by exists c1.
  - by exists c1.
Qed.

Lemma emits_for_eachM {A S} (P : event -> Prop) (xs : list A)
      (body : A -> S -> M S) :
  (forall x s, emits P (body x s)) -> forall s, emits P (for_eachM xs body s).
Proof.
  intros Hbody. induction xs as [|x xs IH]; intros s.
  - apply emits_ret.
  - cbn [for_eachM]. by apply emits_bind.
Qed.

Lemma emits_impl {A} (P Q : event -> Prop) (m : M A) :
  (forall ev, P ev -> Q ev) -> emits P m -> emits Q m.
Proof.
  intros HPQ Hm t. destruct (Hm t) as (calls & Ht & Hc).
  exists calls. split; [done|]. by eapply Forall_impl.
Qed.

Variable E : Env.

Lemma get_lat_lng_emits zip api_key :
  emits is_geocode_call (get_lat_lng E zip api_key).
Proof.
  unfold get_lat_lng. apply emits_bind.
  - by apply emits_call.
  - intros [|[lat lng] rest]; apply emits_ret.
Qed.

Lemma load_previous_results_emits zip k :
  emits is_file_read (load_previous_results E zip k).
Proof.
  unfold load_previous_results. apply emits_bind.
  - intros t. eexists [_]. split; [done|]. by repeat constructor.
  - intros files. apply emits_for_eachM. intros file s.
    apply emits_bind; [by apply emits_call|]. intros names. apply emits_ret.
Qed.

Lemma grid_search_emits fuel lat lng metres api_key :
  emits (fun ev => exists p r, ev = NearbyCall p r /\ radius p = metres)
        (get_businesses_grid_search E fuel lat lng metres api_key).
Proof.
  intros t.
  destruct (grid_search_run E fuel lat lng metres api_key t)
    as (calls & o & Hrun & Hrel).
  exists calls. rewrite Hrun. split; [done|].
  destruct (get_grid_points _ _ _ _ _) as [pts|e|].
  - destruct Hrel as (o' & Hpass & _).
    destruct (pass_run_requests _ _ _ _ _ _ _ Hpass) as [Hall _].
    eapply Forall_impl; [exact Hall|].
    intros ev (pt & tok & r & _ & ->). by eexists _, _.
  - destruct Hrel as [Hc _]. subst calls. constructor.
  - destruct Hrel as [Hc _]. subst calls. constructor.
Qed.

Lemma filter_businesses_emits bs api_key prev k :
  emits is_details_call (filter_businesses E bs api_key prev k).
Proof.
  intros t. unfold filter_businesses.
  destruct (filter_loop_calls E api_key prev k bs [] t)
    as (calls & Htr & Hall & _).
  by exists calls.
Qed.

Lemma expanding_call_mono start turns turns' ev :
  (turns <= turns')%nat ->
  expanding_call start turns ev -> expanding_call start turns' ev.
Proof.
  intros Hle. destruct ev; simpl; try done.
  intros (j & Hj & Hr). exists j. split; [lia|done].
Qed.

Lemma expanding_call_shift start turns ev :
  expanding_call (start + 500) turns ev -> expanding_call start (S turns) ev.
Proof.
  destruct ev; simpl; try done.
  intros (j & Hj & Hr). exists (S j). split; [lia|]. rewrite Hr. lia.
Qed.

Lemma expand_step_emits fuel args lat lng st :
  emits (expanding_call (max_radius st) 1)
        (expand_step E fuel args lat lng st).
Proof.
  unfold expand_step. apply emits_bind.
  - eapply emits_impl; [|apply grid_search_emits].
    intros ev (p & r & -> & Hr). exists 1%nat. split; [lia|]. rewrite Hr. lia.
  - intros bs. apply emits_bind; [|intros; apply emits_ret].
    eapply emits_impl; [|apply filter_businesses_emits].
    by intros [].
Qed.

(** The loop of [main]: its calls, and the radius it ends with. *)
Lemma expand_loop_calls fuel args lat lng (turns : nat) :
  forall st t,
  exists calls,
    snd (expand_loop E turns fuel args lat lng st t) = t ++ calls /\
    Forall (expanding_call (max_radius st) turns) calls /\
    forall st',
      fst (expand_loop E turns fuel args lat lng st t) = Ok st' ->
      exists k : nat,
        (k <= turns)%nat /\
        max_radius st' = max_radius st + 500 * Z.of_nat k /\
        (k = 0%nat <-> n args <= Z.of_nat (length (found_businesses st))).
Proof.
  induction turns as [|turns IH]; intros st t.
  - destruct (Z.lt_ge_cases (Z.of_nat (length (found_businesses st)))
                            (n args)) as [Hlt|Hge].
    + rewrite expand_loop_no_turn by done. exists []. simpl.
      rewrite app_nil_r. split; [done|]. split; [constructor|done].
    + rewrite expand_loop_exit by done. exists []. simpl.
      rewrite app_nil_r. split; [done|]. split; [constructor|].
      intros st' [= <-]. exists 0%nat. split; [lia|]. split; [lia|done].
  - destruct (Z.lt_ge_cases (Z.of_nat (length (found_businesses st)))
                            (n args)) as [Hlt|Hge].
    + rewrite expand_loop_turn by done. unfold bind.
      destruct (expand_step_emits fuel args lat lng st t)
        as (c1 & Ht1 & Hc1).
      destruct (expand_step E fuel args lat lng st t)
        as [[st1|e|] t1] eqn:Hstep; simpl in Ht1; subst t1.
      * destruct (IH st1 (t ++ c1)) as (c2 & Ht2 & Hc2 & Hrad).
        apply expand_step_inv in Hstep
          as (businesses & t0 & filtered & _ & _ & Hst1).
        assert (max_radius st1 = max_radius st + 500) as Hr1
            by (by rewrite Hst1).
        exists (c1 ++ c2). rewrite Ht2, app_assoc. split; [done|]. split.
        -- apply Forall_app. split.
           ++ eapply Forall_impl; [exact Hc1|].
              intros ev. apply expanding_call_mono. lia.
           ++ eapply Forall_impl; [exact Hc2|].
              intros ev Hev. apply expanding_call_shift. by rewrite <- Hr1.
        -- intros st' Hst'. destruct (Hrad st' Hst') as (k & Hk & Hmax & _).
           exists (S k). split; [lia|]. split; [lia|]. split; [done|lia].
      * exists c1. split; [done|]. split; [|done].
        eapply Forall_impl; [exact Hc1|].
        intros ev. apply expanding_call_mono. lia.
      * exists c1. split; [done|]. split; [|done].
        eapply Forall_impl; [exact Hc1|].
        intros ev. apply expanding_call_mono. lia.
    + rewrite expand_loop_exit by done. exists []. simpl.
      rewrite app_nil_r. split; [done|]. split; [constructor|].
      intros st' [= <-]. exists 0%nat. split; [lia|]. split; [lia|done].
Qed.

(** The rows the loop adds carry names outside the set it starts with. *)
Lemma expand_loop_fresh fuel args lat lng (turns : nat) :
  forall st t st' t',
    expand_loop E turns fuel args lat lng st t = (Ok st', t') ->
    exists new,
      found_businesses st' = found_businesses st ++ new /\
      Forall (fun r => Name r ∉ previous_stores st) new.
Proof.
  induction turns as [|turns IH]; intros st t st' t' Hrun;
    apply expand_loop_inv in Hrun
      as [(Hge & -> & ->)|(Hlt & turns' & st1 & t1 & Ht & Hstep & Hrest)];
    try done.
  1,2: exists []; by rewrite app_nil_r.
  injection Ht as <-.
  apply expand_step_inv in Hstep
    as (businesses & t0 & filtered & _ & Hf & ->).
  apply filter_businesses_fresh in Hf.
  destruct (IH _ _ _ _ Hrest) as (new & Hfound & Hnew). simpl in *.
  exists (filtered ++ new). rewrite Hfound, <- app_assoc. split; [done|].
  apply Forall_app. split; [done|].
  eapply Forall_impl; [exact Hnew|]. intros r Hr Hin. apply Hr.
  apply elem_of_union. by left.
Qed.

(** The calls of one turn: the searches of a grid search at the next
    radius, then the details calls of the filter. *)
Lemma expand_step_calls fuel args lat lng st t :
  exists searches lookups,
    snd (expand_step E fuel args lat lng st t) = t ++ searches ++ lookups /\
    snd (get_businesses_grid_search E fuel lat lng (max_radius st + 500)
                                    (API_KEY args) t)
    = t ++ searches /\
    Forall (searches_at (max_radius st + 500)) searches /\
    Forall is_details_call lookups.
Proof.
  destruct (grid_search_emits fuel lat lng (max_radius st + 500)
              (API_KEY args) t) as (searches & Hs & Hall).
  unfold expand_step, bind.
  destruct (get_businesses_grid_search E fuel lat lng (max_radius st + 500)
              (API_KEY args) t) as [[businesses|e|] t1];
    simpl in Hs; subst t1.
  - destruct (filter_businesses_emits businesses (API_KEY args)
                (previous_stores st)
                (n args - Z.of_nat (length (found_businesses st)))
                (t ++ searches)) as (lookups & Hl & Hlall).
    exists searches, lookups.
    destruct (filter_businesses E businesses _ _ _ (t ++ searches))
      as [[filtered|e|] t2]; simpl in Hl; subst t2; simpl;
      by rewrite <- app_assoc.
  - exists searches, []. by rewrite app_nil_r.
  - exists searches, []. by rewrite app_nil_r.
Qed.

(** The loop of [main], turn by turn. *)
Lemma expand_loop_turns fuel args lat lng (turns : nat) :
  forall st t,
  exists by_turn : list (list event * list event),
    snd (expand_loop E turns fuel args lat lng st t)
    = t ++ (by_turn ≫= fun turn => turn.1 ++ turn.2) /\
    turns_from E fuel lat lng (API_KEY args) (max_radius st) t by_turn /\
    (length by_turn <= turns)%nat /\
    forall st',
      fst (expand_loop E turns fuel args lat lng st t) = Ok st' ->
      max_radius st' = max_radius st + 500 * Z.of_nat (length by_turn) /\
      (by_turn = [] <-> n args <= Z.of_nat (length (found_businesses st))).
Proof.
  induction turns as [|turns IH]; intros st t.
  - destruct (Z.lt_ge_cases (Z.of_nat (length (found_businesses st)))
                            (n args)) as [Hlt|Hge].
    + rewrite expand_loop_no_turn by done. exists []. simpl.
      rewrite app_nil_r. split; [done|]. split; [done|]. split; [lia|done].
    + rewrite expand_loop_exit by done. exists []. simpl.
      rewrite app_nil_r. split; [done|]. split; [done|]. split; [lia|].
      intros st' [= <-]. split; [lia|done].
  - destruct (Z.lt_ge_cases (Z.of_nat (length (found_businesses st)))
                            (n args)) as [Hlt|Hge].
    + rewrite expand_loop_turn by done. unfold bind.
      destruct (expand_step_calls fuel args lat lng st t)
        as (searches & lookups & Ht1 & Hs & Hsall & Hlall).
      destruct (expand_step E fuel args lat lng st t)
        as [[st1|e|] t1] eqn:Hstep; simpl in Ht1; subst t1.
      * destruct (IH st1 (t ++ searches ++ lookups))
          as (rest & Ht2 & Hrest & Hlen & Hrad).
        apply expand_step_inv in Hstep
          as (businesses & t0 & filtered & _ & _ & Hst1).
        assert (max_radius st1 = max_radius st + 500) as Hr1
            by (by rewrite Hst1).
        exists ((searches, lookups) :: rest).
        rewrite bind_cons. cbn [fst snd length turns_from].
        rewrite Ht2, <- !app_assoc. split; [done|].
        split; [split; [done|split; [done|split; [done|]]];
                by rewrite <- Hr1|].
        split; [lia|].
        intros st' Hst'. destruct (Hrad st' Hst') as [Hmax _].
        split; [lia|]. split; [done|lia].
      * exists [(searches, lookups)]. rewrite bind_cons. simpl.
        rewrite app_nil_r. split; [done|]. split; [done|]. split; [lia|done].
      * exists [(searches, lookups)]. rewrite bind_cons. simpl.
        rewrite app_nil_r. split; [done|]. split; [done|]. split; [lia|done].
    + rewrite expand_loop_exit by done. exists []. simpl.
      rewrite app_nil_r. split; [done|]. split; [done|]. split; [lia|].
      intros st' [= <-]. split; [lia|done].
Qed.

End Emits.

(** X13.  The radius grows by one step of 500 metres per turn.  The calls of
    the loop of [main] divide into turns; the calls of a turn are the
    searches of one grid search, followed by details calls; the grid search
    of the first turn has the starting radius plus 500 metres, and the grid
    search of every later turn the radius of the turn before plus 500
    metres; and a loop that returns ends with the starting radius plus 500
    metres for every turn it took, none exactly when the target was met
    from the start. *)
Theorem expand_loop_radius_steps
        (E : Env) (turns fuel : nat) (args : arguments) (lat lng : float)
        (st : search_state) (t : trace) :
  exists by_turn : list (list event * list event),
    snd (expand_loop E turns fuel args lat lng st t)
    = t ++ (by_turn ≫= fun turn => turn.1 ++ turn.2) /\
    turns_from E fuel lat lng (API_KEY args) (max_radius st) t by_turn /\
    (length by_turn <= turns)%nat /\
    forall st',
      fst (expand_loop E turns fuel args lat lng st t) = Ok st' ->
      max_radius st' = max_radius st + 500 * Z.of_nat (length by_turn) /\
      (by_turn = [] <-> n args <= Z.of_nat (length (found_businesses st))).
Proof. apply expand_loop_turns. Qed.

(** On the sample service the loop takes two turns: 121 searches with a
    radius of 500 metres, then 242 with a radius of 1000 metres. *)
Example expand_loop_two_turns :
  let run :=
    expand_loop Sample.env 2 2 Sample.args 60 25
                (Sample.start ["Old"%string] Sample.args) [] in
  (max_radius <$> match fst run with Ok st => Some st | _ => None end)
  = Some 1000 /\
  (snd run ≫= fun ev => match ev with
                        | NearbyCall p _ => [radius p]
                        | _ => []
                        end)
  = replicate 121 500 ++ replicate 242 1000.
Proof. split; by vm_compute. Qed.

(** ** Earlier results and the run of [main] *)

Section MainRuns.
Variable E : Env.

Lemma names_read_app (c1 c2 : list event) :
  names_read (c1 ++ c2) = names_read c1 ++ names_read c2.
Proof. apply bind_app. Qed.

(** The names read are the texts among the values read. *)
Lemma names_read_cells (calls : list event) (nm : string) :
  Text nm ∈ cells_read calls <-> nm ∈ names_read calls.
Proof.
  assert (forall cells, Text nm ∈ cells <-> nm ∈ texts cells) as Htexts.
  { intros cells. unfold texts. rewrite list_elem_of_omap. split.
    - intros Hin. by exists (Text nm).
    - intros (c & Hc & Hs). destruct c; try done. by injection Hs as ->. }
  unfold cells_read, names_read. rewrite !list_elem_of_bind.
  split; intros (ev & Hnm & Hev); exists ev; (split; [|done]);
    destruct ev as [| | | |file [cells|e]|];
    try (by apply elem_of_nil in Hnm); by apply Htexts.
Qed.

Lemma names_read_none (calls : list event) :
  Forall (fun ev => ~ is_file_read ev) calls -> names_read calls = [].
Proof.
  induction 1 as [|ev calls Hev _ IH]; [done|].
  unfold names_read in *. rewrite bind_cons, IH, app_nil_r.
  by destruct ev as [| | | |file r|].
Qed.

(** The loop of [load_previous_results]: one read per file, in order, and
    the names read are added to the set. *)
Lemma load_loop (files : list string) :
  forall (S : gset (option string)) (t : trace) S' t',
    for_eachM files
      (fun file previous_stores =>
         bind (call (fun t => read_csv_names E t file) (ReadCsvCall file))
              (fun names =>
                 ret (previous_stores
                      ∪ list_to_set (Some <$> texts names))))
      S t = (Ok S', t') ->
    exists reads,
      t' = t ++ reads /\
      Forall2 (fun f ev => exists names, ev = ReadCsvCall f (Reply names))
              files reads /\
      S' = S ∪ list_to_set (Some <$> names_read reads).
Proof.
  induction files as [|file files IH]; intros S t S' t' Hrun.
  - injection Hrun as <- <-. exists []. rewrite app_nil_r.
    split; [done|]. split; [constructor|].
    simpl. by rewrite (right_id_L ∅ (∪)).
  - cbn [for_eachM] in Hrun. unfold bind at 1 2, call, ret in Hrun.
    destruct (read_csv_names E t file) as [names|e] eqn:Hread; [|done].
    destruct (IH _ _ _ _ Hrun) as (reads & -> & Hreads & ->).
    exists (ReadCsvCall file (Reply names) :: reads).
    rewrite <- app_assoc. split; [done|]. split.
    + constructor; [by exists names|done].
    + unfold names_read. rewrite bind_cons, fmap_app, list_to_set_app_L.
      by rewrite (assoc_L (∪)).
Qed.

Lemma load_previous_results_inv (zip : string) (k : Z) (t t' : trace)
      (S : gset (option string)) :
  load_previous_results E zip k t = (Ok S, t') ->
  exists files reads,
    t' = t ++ GlobCall (previous_pattern zip k) files :: reads /\
    files = glob_fs E t (previous_pattern zip k) /\
    Forall2 (fun f ev => exists names, ev = ReadCsvCall f (Reply names))
            files reads /\
    S = list_to_set (Some <$> names_read reads).
Proof.
  unfold load_previous_results. unfold bind at 1. intros Hrun.
  destruct (load_loop _ _ _ _ _ Hrun) as (reads & -> & Hreads & ->).
  eexists _, reads. rewrite <- app_assoc. split; [done|].
  split; [done|]. split; [done|]. by rewrite (left_id_L ∅ (∪)).
Qed.

(** The run of [main], part by part: the geocoding call, the reading of the
    earlier results, the calls of the loop, and the writing of the file,
    which happens only when the run returns. *)
Lemma main_calls (turns fuel : nat) (args : arguments) (t : trace) :
  exists c_geo c_load c_loop c_write,
    snd (main E turns fuel args t)
    = t ++ c_geo ++ c_load ++ c_loop ++ c_write /\
    Forall is_geocode_call c_geo /\
    Forall is_file_read c_load /\
    Forall (expanding_call (minRadius args) turns) c_loop /\
    (n args <= 0 -> c_loop = []) /\
    (c_write = [] \/
     fst (main E turns fuel args t) = Ok tt /\
     exists (k : nat) rows,
       c_write = [ToCsvCall (output_file_name
                               args (minRadius args + 500 * Z.of_nat k))
                            rows] /\
       (k <= turns)%nat /\
       (k = 0%nat <-> n args <= 0) /\
       Z.of_nat (length rows) = Z.max 0 (n args) /\
       Forall (fun r => forall nm, nm ∈ names_read c_load ->
                                   Name r <> Some nm) rows).
Proof.
  unfold main, bind.
  destruct (get_lat_lng_emits E (zip_code args) (API_KEY args) t)
    as (c_geo & Ht1 & Hgeo).
  destruct (get_lat_lng E (zip_code args) (API_KEY args) t)
    as [[ll|e|] t1]; simpl in Ht1; subst t1.
  2,3: exists c_geo, [], [], []; rewrite !app_nil_r;
       (split; [done|]); repeat (split; [done|]); by left.
  destruct (located ll.1 ll.2) as [[lat lng]|].
  2: { exists c_geo, [], [], []. rewrite !app_nil_r.
       split; [done|]. repeat (split; [done|]). by left. }
  destruct (load_previous_results_emits E (zip_code args) (n args)
              (t ++ c_geo)) as (c_load & Ht2 & Hload).
  destruct (load_previous_results E (zip_code args) (n args) (t ++ c_geo))
    as [[previous|e|] t2] eqn:Hrun2; simpl in Ht2; subst t2.
  2,3: exists c_geo, c_load, [], []; rewrite !app_nil_r, <- app_assoc;
       (split; [done|]); repeat (split; [done|]); by left.
  set (st0 := {| max_radius := minRadius args; found_businesses := [];
                 previous_stores := previous |}).
  destruct (expand_loop_calls E fuel args lat lng turns st0
              ((t ++ c_geo) ++ c_load)) as (c_loop & Ht3 & Hloop & Hrad).
  assert (n args <= 0 -> c_loop = []) as Hnone.
  { intros Hn. rewrite expand_loop_exit in Ht3 by (simpl; lia).
    simpl in Ht3. rewrite <- (app_nil_r (_ ++ c_load)) in Ht3 at 1.
    by apply app_inv_head in Ht3. }
  destruct (expand_loop E turns fuel args lat lng st0 _)
    as [[st'|e|] t3] eqn:Hrun3; simpl in Ht3; subst t3.
  2,3: exists c_geo, c_load, c_loop, []; rewrite !app_nil_r, <- !app_assoc;
       (split; [done|]); repeat (split; [done|]); by left.
  destruct (Hrad st' eq_refl) as (k & Hk & Hmax & Hzero).
  exists c_geo, c_load, c_loop,
    [ToCsvCall (output_file_name args (max_radius st'))
               (found_businesses st')].
  simpl. rewrite <- !app_assoc. split; [done|]. repeat (split; [done|]).
  right. split; [done|]. exists k, (found_businesses st').
  rewrite Hmax. simpl. split; [done|]. split; [done|].
  split; [simpl in Hzero; by rewrite Hzero|]. split.
  - destruct (Z.le_gt_cases (n args) 0) as [Hle|Hgt].
    + rewrite expand_loop_exit in Hrun3 by (simpl; lia).
      injection Hrun3 as <- _. simpl. lia.
    + assert (Z.of_nat (length (found_businesses st0)) <= n args) as Hst0
          by (simpl; lia).
      rewrite (expand_loop_final E fuel args lat lng turns _ _ _ _
                 Hst0 Hrun3). lia.
  - apply load_previous_results_inv in Hrun2
      as (files & reads & Hc & _ & _ & Hset).
    apply app_inv_head in Hc. subst c_load previous.
    destruct (expand_loop_fresh E fuel args lat lng turns _ _ _ _ Hrun3)
      as (new & Hfound & Hnew). simpl in Hfound, Hnew. rewrite Hfound.
    eapply Forall_impl; [exact Hnew|]. intros r Hr nm Hnm Heq. apply Hr.
    rewrite Heq. apply elem_of_list_to_set, list_elem_of_fmap_2.
    change (GlobCall _ _ :: reads) with ([GlobCall
      (previous_pattern (zip_code args) (n args)) files] ++ reads) in Hnm.
    by rewrite names_read_app in Hnm.
Qed.

End MainRuns.

(** X17.  [load_previous_results] lists the files of the pattern
    [<zip_code>.<n>.*.csv] once, reads every file listed, in order, and
    returns exactly the names read: a value is in the set it returns when,
    and only when, it is a name of the [Name] column of one of the files
    (a text, that is: the set is modelled by the texts it holds, and a
    value read as a number equals no name). *)
Theorem load_previous_results_reads_all
        (E : Env) (zip : string) (k : Z) (t t' : trace)
        (S : gset (option string)) :
  load_previous_results E zip k t = (Ok S, t') ->
  exists reads,
    t' = t ++ GlobCall (previous_pattern zip k)
                       (glob_fs E t (previous_pattern zip k)) :: reads /\
    Forall2 (fun f ev => exists names, ev = ReadCsvCall f (Reply names))
            (glob_fs E t (previous_pattern zip k)) reads /\
    forall x, x ∈ S <-> exists nm, x = Some nm /\ nm ∈ names_read reads.
Proof.
  intros (files & reads & -> & -> & Hreads & ->)%load_previous_results_inv.
  exists reads. split; [done|]. split; [done|].
  intros x. rewrite elem_of_list_to_set, list_elem_of_fmap. done.
Qed.

Lemma load_previous_results_reads_all_witness :
  exists reads,
    snd (load_previous_results Sample.env "98033" 2 [])
    = [] ++ GlobCall "98033.2.*.csv" ["98033.2.500.csv"%string] :: reads /\
    Forall2 (fun f ev => exists names, ev = ReadCsvCall f (Reply names))
            ["98033.2.500.csv"%string] reads /\
    forall x, x ∈ ({[Some "Old"%string]} : gset (option string))
              <-> exists nm, x = Some nm /\ nm ∈ names_read reads.
Proof.
  apply (load_previous_results_reads_all Sample.env "98033" 2 []).
  vm_compute. reflexivity.
Defined.

Section MainProperties.

Lemma geocode_not_write ev : is_geocode_call ev -> ~ is_write ev.
Proof. destruct ev; simpl; tauto. Qed.
Lemma file_read_not_write ev : is_file_read ev -> ~ is_write ev.
Proof. destruct ev; simpl; tauto. Qed.
Lemma expanding_not_write start turns ev :
  expanding_call start turns ev -> ~ is_write ev.
Proof. destruct ev; simpl; tauto. Qed.

End MainProperties.

(** X14.  [main] writes its result once, at the very end of a run that
    returns, or not at all: a [to_csv] call is the last call of the run, no
    call before it is a write, the run has returned, the file is named
    [<zip_code>.<n>.<radius>.csv] for the starting radius plus a whole
    number of steps of 500 metres, and it holds exactly [n] rows (none for a
    target of zero or less). *)
Theorem main_writes_once_at_end
        (E : Env) (turns fuel : nat) (args : arguments) (t : trace) :
  exists calls,
    snd (main E turns fuel args t) = t ++ calls /\
    forall file rows,
      ToCsvCall file rows ∈ calls ->
      fst (main E turns fuel args t) = Ok tt /\
      exists earlier (k : nat),
        calls = earlier ++ [ToCsvCall file rows] /\
        Forall (fun ev => ~ is_write ev) earlier /\
        (k <= turns)%nat /\
        file = output_file_name args (minRadius args + 500 * Z.of_nat k) /\
        Z.of_nat (length rows) = Z.max 0 (n args).
Proof.
  destruct (main_calls E turns fuel args t)
    as (c_geo & c_load & c_loop & c_write & Htr & Hgeo & Hload & Hloop
        & _ & Hwrite).
  exists (c_geo ++ c_load ++ c_loop ++ c_write). split; [done|].
  assert (Forall (fun ev => ~ is_write ev) (c_geo ++ c_load ++ c_loop))
    as Hearlier.
  { rewrite !Forall_app. split; [|split].
    - eapply Forall_impl; [exact Hgeo|]. apply geocode_not_write.
    - eapply Forall_impl; [exact Hload|]. apply file_read_not_write.
    - eapply Forall_impl; [exact Hloop|]. apply expanding_not_write. }
  intros file rows Hin. rewrite !app_assoc, <- (app_assoc c_geo) in Hin.
  apply elem_of_app in Hin as [Hin|Hin].
  { rewrite Forall_forall in Hearlier. by destruct (Hearlier _ Hin). }
  destruct Hwrite as [->|(Hok & k & rows' & -> & Hk & _ & Hlen & _)].
  { by apply elem_of_nil in Hin. }
  apply list_elem_of_singleton in Hin. injection Hin as -> ->.
  split; [done|]. exists (c_geo ++ c_load ++ c_loop), k.
  rewrite <- !app_assoc. by repeat split.
Qed.

(** X15.  With a target of zero or less [main] searches nothing: a run makes
    no nearby and no details call, and the file it writes, if it gets to
    writing, is empty and carries the starting radius in its name. *)
Theorem main_nonpositive_target
        (E : Env) (turns fuel : nat) (args : arguments) (t : trace) :
  n args <= 0 ->
  exists calls,
    snd (main E turns fuel args t) = t ++ calls /\
    Forall (fun ev => ~ is_nearby_call ev /\ ~ is_details_call ev) calls /\
    forall file rows,
      ToCsvCall file rows ∈ calls ->
      file = output_file_name args (minRadius args) /\ rows = [].
Proof.
  intros Hn.
  destruct (main_calls E turns fuel args t)
    as (c_geo & c_load & c_loop & c_write & Htr & Hgeo & Hload & _
        & Hnone & Hwrite).
  rewrite (Hnone Hn) in Htr. simpl in Htr.
  exists (c_geo ++ c_load ++ c_write). split; [done|].
  assert (c_write = [] \/
          c_write = [ToCsvCall (output_file_name args (minRadius args)) []])
    as Hw.
  { destruct Hwrite as [->|(_ & k & rows & -> & _ & Hzero & Hlen & _)];
      [by left|right].
    assert (k = 0%nat) as -> by (by apply Hzero).
    replace (minRadius args + 500 * Z.of_nat 0) with (minRadius args) by lia.
    destruct rows; [done|]. simpl in Hlen. lia. }
  split.
  - rewrite !Forall_app. split; [|split].
    + eapply Forall_impl; [exact Hgeo|]. intros ev; destruct ev; simpl; tauto.
    + eapply Forall_impl; [exact Hload|]. intros ev; destruct ev; simpl; tauto.
    + destruct Hw as [->| ->]; [constructor|].
      constructor; [simpl; tauto|constructor].
  - intros file rows [Hin|[Hin|Hin]%elem_of_app]%elem_of_app.
    + rewrite Forall_forall in Hgeo. by destruct (Hgeo _ Hin).
    + rewrite Forall_forall in Hload. by destruct (Hload _ Hin).
    + destruct Hw as [->| ->]; [by apply elem_of_nil in Hin|].
      apply list_elem_of_singleton in Hin. by injection Hin as -> ->.
Qed.

Lemma main_nonpositive_target_witness :
  n Sample.args_none <= 0 /\
  main Sample.env 2 2 Sample.args_none []
  = (Ok tt,
     [GeocodeCall "98033" (Some "key"%string) (Reply [(60%float, 25%float)]);
      GlobCall "98033.0.*.csv" ["98033.2.500.csv"%string];
      ReadCsvCall "98033.2.500.csv" (Reply [Text "Old"]);
      ToCsvCall "98033.0.250.csv" []]) /\
  exists calls,
    snd (main Sample.env 2 2 Sample.args_none []) = [] ++ calls /\
    Forall (fun ev => ~ is_nearby_call ev /\ ~ is_details_call ev) calls /\
    forall file rows,
      ToCsvCall file rows ∈ calls ->
      file = output_file_name Sample.args_none (minRadius Sample.args_none)
      /\ rows = [].
Proof.
  assert (n Sample.args_none <= 0) as Hn by (simpl; lia).
  refine (conj Hn (conj _ _)).
  - vm_compute. reflexivity.
  - exact (main_nonpositive_target Sample.env 2 2 Sample.args_none [] Hn).
Defined.

(** X16.  [main] never writes a name it has read as a text: no row of the
    file written carries a name that the ['Name'] column of an earlier
    result file read in the same run holds as a text.  (A name that pandas
    reads back as a number is another value: the example that follows shows
    such a name written again.) *)
Theorem main_never_rewrites_a_name_read
        (E : Env) (turns fuel : nat) (args : arguments) (t : trace) :
  exists calls,
    snd (main E turns fuel args t) = t ++ calls /\
    forall file rows nm,
      ToCsvCall file rows ∈ calls ->
      Text nm ∈ cells_read calls ->
      Forall (fun r => Name r <> Some nm) rows.
Proof.
  destruct (main_calls E turns fuel args t)
    as (c_geo & c_load & c_loop & c_write & Htr & Hgeo & Hload & Hloop
        & _ & Hwrite).
  exists (c_geo ++ c_load ++ c_loop ++ c_write). split; [done|].
  intros file rows nm Hin Hnm. apply names_read_cells in Hnm.
  assert (names_read (c_geo ++ c_load ++ c_loop ++ c_write)
          = names_read c_load) as Hreads.
  { rewrite !names_read_app.
    rewrite (names_read_none c_geo), (names_read_none c_loop),
      (names_read_none c_write), !app_nil_r; [done|..].
    - destruct Hwrite as [->|(_ & k & rows' & -> & _)]; [constructor|].
      constructor; [simpl; tauto|constructor].
    - eapply Forall_impl; [exact Hloop|]. intros ev; destruct ev; simpl; tauto.
    - eapply Forall_impl; [exact Hgeo|]. intros ev; destruct ev; simpl; tauto. }
  rewrite Hreads in Hnm.
  apply elem_of_app in Hin as [Hin|[Hin|[Hin|Hin]%elem_of_app]%elem_of_app].
  - rewrite Forall_forall in Hgeo. by destruct (Hgeo _ Hin).
  - rewrite Forall_forall in Hload. by destruct (Hload _ Hin).
  - rewrite Forall_forall in Hloop. by destruct (Hloop _ Hin).
  - destruct Hwrite as [->|(_ & k & rows' & -> & _ & _ & _ & Hfresh)].
    { by apply elem_of_nil in Hin. }
    apply list_elem_of_singleton in Hin. injection Hin as -> ->.
    eapply Forall_impl; [exact Hfresh|]. intros r Hr. by apply Hr.
Qed.

(** A store named [123] that an earlier run has written is read back as the
    int [123], is not recognised, and is written again. *)
Example main_rewrites_a_name_read_as_number :
  main Sample.env_numbered 1 1 Sample.args_one []
  = (Ok tt,
     [GeocodeCall "98033" (Some "key"%string) (Reply [(60%float, 25%float)]);
      GlobCall "98033.1.*.csv" ["98033.1.500.csv"%string];
      ReadCsvCall "98033.1.500.csv" (Reply [IntCell 123])]
     ++ snd (get_businesses_grid_search
               Sample.env_numbered 1 60 25 500 (Some "key"%string) [])
     ++ [DetailsCall (Some "idN"%string) (Some "key"%string)
                     (Reply Sample.phone_only);
         ToCsvCall "98033.1.500.csv"
                   [{| Name := Some "123"%string;
                       Address := Some "1 Main St"%string;
                       Phone := Some "555-0100"%string;
                       Types := "store" |}]]).
Proof. by vm_compute. Qed.

(** ** A service that answers in one page *)

Section SinglePage.
Variable E : Env.
Variables (metres : Z) (api_key : option string).

(** The service answers every request with one page that has no token and
    whose items all have [types]. *)
Hypothesis one_page :
  forall t p, exists pg,
    nearby_api E t p = Reply pg /\
    PyStr.truthy (next_page_token pg) = false /\
    Forall (fun item => p_types item <> None) (results pg).

Lemma add_page_typed_ok (pg : page) (bs : list business) :
  Forall (fun item => p_types item <> None) (results pg) ->
  exists bs', add_page pg bs = Ok bs'.
Proof.
  intros Hall. pose proof (add_page_spec pg bs) as Hs.
  destruct (add_page pg bs) as [bs'|e|]; [by exists bs'| |done].
  destruct Hs as (_ & p & Hp & Hnone).
  rewrite Forall_forall in Hall. by destruct (Hall p Hp).
Qed.

Lemma search_point_one_page (fuel : nat) (pt : point) (token : option string)
      (bs : list business) (t : trace) :
  exists bs' ev,
    search_point E (S fuel) pt metres api_key token bs t
    = (Ok bs', t ++ [ev]).
Proof.
  cbn [search_point]. unfold bind, call, lift.
  fold (params_of pt metres api_key token).
  destruct (one_page t (params_of pt metres api_key token))
    as (pg & -> & Htok & Htyped).
  fold (add_page pg bs).
  destruct (add_page_typed_ok pg bs Htyped) as [bs' ->].
  rewrite Htok. by eexists _, _.
Qed.

Lemma collect_one_page (fuel : nat) (pts : list point) :
  forall bs t,
  exists bs' calls,
    for_eachM pts
      (fun pt businesses =>
         search_point E (S fuel) pt metres api_key None businesses) bs t
    = (Ok bs', t ++ calls) /\
    length calls = length pts.
Proof.
  induction pts as [|pt pts IH]; intros bs t.
  - exists bs, []. simpl. by rewrite app_nil_r.
  - cbn [for_eachM]. unfold bind.
    destruct (search_point_one_page fuel pt None bs t) as (bs1 & ev & ->).
    destruct (IH bs1 (t ++ [ev])) as (bs' & calls & -> & Hlen).
    exists bs', (ev :: calls). rewrite <- app_assoc. split; [done|].
    simpl. by rewrite Hlen.
Qed.

End SinglePage.

(** X18.  Against a service that answers every request with one page
    without token whose items all have [types], a pass of the grid search
    with room for one request per point returns, after exactly one request
    for every point of the grid. *)
Theorem grid_search_one_request_per_point
        (E : Env) (fuel : nat) (center_lat center_lng : float) (metres : Z)
        (api_key : option string) (t : trace) (grid_points : list point) :
  (forall t0 p, exists pg,
      nearby_api E t0 p = Reply pg /\
      PyStr.truthy (next_page_token pg) = false /\
      Forall (fun item => p_types item <> None) (results pg)) ->
  get_grid_points (math_cos E) center_lat center_lng metres 10
  = Ok grid_points ->
  exists merged calls,
    get_businesses_grid_search E (S fuel) center_lat center_lng metres
                               api_key t
    = (Ok merged, t ++ calls) /\
    length calls = length grid_points.
Proof.
  intros Hone Hgrid.
  unfold get_businesses_grid_search, collect_businesses, bind, lift, ret.
  rewrite Hgrid.
  destruct (collect_one_page E metres api_key Hone fuel grid_points [] t)
    as (bs & calls & -> & Hlen).
  by exists (unique_businesses bs), calls.
Qed.

Lemma grid_search_one_request_per_point_witness :
  exists merged calls,
    get_businesses_grid_search Sample.env_nameless 1 60 25 500
                               (Some "key"%string) []
    = (Ok merged, [] ++ calls) /\
    length calls = 121%nat.
Proof.
  destruct (get_grid_points Sample.cos_table 60 25 500 10)
    as [grid_points| |] eqn:Hgrid; [|by vm_compute in Hgrid..].
  assert (length grid_points = 121%nat) as <-.
  { vm_compute in Hgrid. by injection Hgrid as <-. }
  apply (grid_search_one_request_per_point
           Sample.env_nameless 0 60 25 500 (Some "key"%string) []).
  - intros t0 p. eexists. split; [reflexivity|]. split; [done|].
    by repeat constructor.
  - exact Hgrid.
Defined.

(** X19.  What is stored under [Types] for an item whose labels have no
    comma: the labels are joined with a comma and a space by the grid search
    and split at the comma by the filter, so the first label is dropped when
    it is [point_of_interest] or [establishment], every other label is kept,
    and all labels kept are trimmed and joined again. *)
Theorem stored_types_of_labels
        (p : place) (b : business) (d : details)
        (l : string) (ls : list string) :
  p_types p = Some (l :: ls) ->
  Forall (fun x => PyStr.lacks "," x = true) (l :: ls) ->
  business_of_place p = Ok b ->
  Types (make_row b d)
  = PyStr.join ", "
      (PyStr.strip <$> (filter (fun x => x ∉ unwanted_types) [l] ++ ls)).
Proof.
  intros Hts Hlacks Hb. unfold business_of_place in Hb. rewrite Hts in Hb.
  injection Hb as <-. cbn [make_row Types types].
  by apply filtered_types_tests_first_label_only.
Qed.

Lemma stored_types_of_labels_witness :
  Types (make_row (Sample.business_of Sample.Alpha) Sample.with_website)
  = "bakery, point_of_interest, establishment"%string.
Proof.
  apply (stored_types_of_labels Sample.Alpha (Sample.business_of Sample.Alpha)
           Sample.with_website "bakery"
           ["point_of_interest"; "establishment"]%string).
  - reflexivity.
  - by repeat constructor.
  - reflexivity.
Defined.

(** ** A radius of zero *)

Section RadiusZero.

(** Adding a zero divided by a number that is not zero changes nothing. *)
Lemma add_zero_quotient (c z k : float) :
  is_nan c = false ->
  (exists s, Prim2SF z = S754_zero s) ->
  is_nan k = false -> PrimFloat.eqb k 0 = false ->
  PrimFloat.eqb (c + z / k) c = true.
Proof.
  intros Hc [sz Hz] Hk Hk0.
  apply is_nan_false in Hc. apply is_nan_false in Hk.
  pose proof (is_zero_false _ Hk0) as Hnz.
  rewrite FloatAxioms.eqb_spec, add_spec, div_spec, Hz.
  assert (exists s, SF64div (S754_zero sz) (Prim2SF k) = S754_zero s)
    as [s ->].
  { destruct (Prim2SF k) as [sk|sk| |sk mk ek]; simpl; eauto;
      try congruence; by destruct (Hnz sk). }
  unfold SFeqb.
  destruct (Prim2SF c) as [sc|sc| |sc mc ec] eqn:Ec; try congruence.
  - by destruct sc, s.
  - by destruct sc.
  - unfold SF64add, SFadd. by rewrite SFcompare_refl.
Qed.

(** With a step of zero, the eleven offsets of the default grid all give
    a zero. *)
Lemma default_offsets_zero :
  Forall (fun i => exists s, Prim2SF (PyFloat.nearest i * 0) = S754_zero s)
         (py_range (- 10 / 2) (10 / 2 + 1)).
Proof.
  change (py_range (- 10 / 2) (10 / 2 + 1))
    with [-5; -4; -3; -2; -1; 0; 1; 2; 3; 4; 5].
  repeat constructor; eexists; vm_compute; reflexivity.
Qed.

End RadiusZero.

(** X20.  With a radius of zero the grid of the grid search (density 10)
    degenerates to the centre: the call still returns 121 points, and every
    one of them equals the centre, when the centre and the longitude divisor
    are numbers and the divisor is not zero. *)
Theorem get_grid_points_radius_zero_is_centre
        (math_cos : float -> float) (center_lat center_lng : float) :
  is_nan center_lat = false -> is_nan center_lng = false ->
  is_nan (lng_divisor math_cos center_lat) = false ->
  PrimFloat.eqb (lng_divisor math_cos center_lat) 0 = false ->
  exists points,
    get_grid_points math_cos center_lat center_lng 0 10 = Ok points /\
    length points = 121%nat /\
    Forall (fun p => PrimFloat.eqb (fst p) center_lat = true /\
                     PrimFloat.eqb (snd p) center_lng = true) points.
Proof.
  intros Hlat Hlng Hnan HD.
  assert (PyFloat.truediv_int 0 (10 / 2) = Ok 0%float) as Hoff
      by reflexivity.
  assert (forall i, - 10 / 2 <= i <= 10 / 2 ->
                    Z.abs i < PyFloat.int_overflow) as Hrng.
  { intros i. change (- 10 / 2) with (-5). change (10 / 2) with 5.
    change PyFloat.int_overflow with (2 ^ 1024 - 2 ^ 970). lia. }
  pose proof (get_grid_points_product math_cos center_lat center_lng 0 10
                0%float Hoff Hrng Hnan HD) as Hpts.
  cbv zeta in Hpts. eexists. split; [exact Hpts|]. split.
  - rewrite length_product. reflexivity.
  - apply Forall_bind. pose proof default_offsets_zero as Hzero.
    eapply Forall_impl; [exact Hzero|]. intros i Hi. unfold compose.
    apply Forall_fmap. eapply Forall_impl; [exact Hzero|]. intros j Hj.
    unfold compose, offset_point. cbn [fst snd]. split.
    + by apply add_zero_quotient.
    + by apply add_zero_quotient.
Qed.

Lemma get_grid_points_radius_zero_is_centre_witness :
  exists points,
    get_grid_points Sample.cos_table 60 25 0 10 = Ok points /\
    length points = 121%nat /\
    Forall (fun p => PrimFloat.eqb (fst p) 60 = true /\
                     PrimFloat.eqb (snd p) 25 = true) points.
Proof.
  apply (get_grid_points_radius_zero_is_centre Sample.cos_table 60 25);
    reflexivity.
Defined.
